(** * RequirementAnalystAgent: recovery of an analysis record from model output

    A shallow embedding of [src/agents/requirement_analyst.py]: the payload
    locator, the two repair passes, the structure validator, the record
    builder, the heading-driven and label-driven text extractors, the
    finalisation step and [analyze] itself, followed by the properties of the
    specification that were checked against them. *)

From Stdlib Require Import List NArith ZArith Ascii String Bool Arith Lia.
From Stdlib Require Import DecimalString DecimalNat Finite.
Import ListNotations.

Set Implicit Arguments.

(** ** Python strings

    A Python [str] is a sequence of Unicode code points, and [len], slicing
    and the [re] module count code points.  A string is therefore a list of
    code points; literals of the source are written as they are in the source
    and decoded from the UTF-8 bytes of the Rocq literal by [u]. *)

Module Py.

Definition char := N.
Definition str := list char.

Definition byte_val (a : ascii) : N := N_of_ascii a.

(** Continuation bytes carry six payload bits each. *)
Definition cont (a : ascii) : N := N.land (byte_val a) 63.

Fixpoint utf8 (s : string) : str :=
  match s with
  | EmptyString => []
  | String a t =>
      let b := byte_val a in
      if N.ltb b 128 then b :: utf8 t
      else if N.ltb b 224 then
        match t with
        | String a1 t1 => (N.land b 31 * 64 + cont a1)%N :: utf8 t1
        | _ => [b]
        end
      else if N.ltb b 240 then
        match t with
        | String a1 (String a2 t2) =>
            (N.land b 15 * 4096 + cont a1 * 64 + cont a2)%N :: utf8 t2
        | _ => [b]
        end
      else
        match t with
        | String a1 (String a2 (String a3 t3)) =>
            (N.land b 7 * 262144 + cont a1 * 4096 + cont a2 * 64 + cont a3)%N
              :: utf8 t3
        | _ => [b]
        end
  end.

Definition u := utf8.

(** A one-character literal. *)
Definition ch (s : string) : char := hd 0%N (u s).

Definition NL : char := 10%N.
Definition CR : char := 13%N.
Definition TAB : char := 9%N.
Definition BSLASH : char := 92%N.
Definition DQUOTE : char := 34%N.

Definition str_eqb (a b : str) : bool :=
  if list_eq_dec N.eq_dec a b then true else false.

(** [len(s)] *)
Definition len (s : str) : nat := List.length s.

(** [c in cs] for a character. *)
Definition mem (c : char) (cs : list char) : bool :=
  existsb (N.eqb c) cs.

(** [str.isspace] on one code point: the code points Python treats as
    whitespace (bidirectional type WS, B or S, or category Zs). *)
Definition isspace (c : char) : bool :=
  ((9 <=? c) && (c <=? 13) || (28 <=? c) && (c <=? 32)
   || (c =? 133) || (c =? 160) || (c =? 5760)
   || (8192 <=? c) && (c <=? 8202)
   || (c =? 8232) || (c =? 8233) || (c =? 8239) || (c =? 8287)
   || (c =? 12288))%N.

(** Membership in a table of ranges of code points. *)
Definition in_ranges (table : list (N * N)) (c : char) : bool :=
  existsb (fun r => (fst r <=? c) && (c <=? snd r))%N table.

(** The decimal digits (category Nd) of Unicode 14.0, the table of
    CPython 3.11: the class [\d] and [str.isdecimal]. *)
Definition decimal_ranges : list (N * N) :=
  [ (48, 57); (1632, 1641); (1776, 1785); (1984, 1993); (2406, 2415);
    (2534, 2543); (2662, 2671); (2790, 2799); (2918, 2927); (3046, 3055);
    (3174, 3183); (3302, 3311); (3430, 3439); (3558, 3567); (3664, 3673);
    (3792, 3801); (3872, 3881); (4160, 4169); (4240, 4249); (6112, 6121);
    (6160, 6169); (6470, 6479); (6608, 6617); (6784, 6793); (6800, 6809);
    (6992, 7001); (7088, 7097); (7232, 7241); (7248, 7257); (42528, 42537);
    (43216, 43225); (43264, 43273); (43472, 43481); (43504, 43513);
    (43600, 43609); (44016, 44025); (65296, 65305); (66720, 66729);
    (68912, 68921); (69734, 69743); (69872, 69881); (69942, 69951);
    (70096, 70105); (70384, 70393); (70736, 70745); (70864, 70873);
    (71248, 71257); (71360, 71369); (71472, 71481); (71904, 71913);
    (72016, 72025); (72784, 72793); (73040, 73049); (73120, 73129);
    (92768, 92777); (92864, 92873); (93008, 93017); (120782, 120831);
    (123200, 123209); (123632, 123641); (125264, 125273);
    (130032, 130041) ]%N.

(** The other code points of numeric type Digit: superscripts, subscripts,
    circled and parenthesized digits and the like. *)
Definition digit_ranges : list (N * N) :=
  [ (178, 179); (185, 185); (4969, 4977); (6618, 6618); (8304, 8304);
    (8308, 8313); (8320, 8329); (9312, 9320); (9332, 9340); (9352, 9360);
    (9450, 9450); (9461, 9469); (9471, 9471); (10102, 10110); (10112, 10120);
    (10122, 10130); (68160, 68163); (69216, 69224); (69714, 69722);
    (127232, 127242) ]%N.

Definition isdecimal (c : char) : bool := in_ranges decimal_ranges c.

(** [str.isdigit] on one code point: numeric type Decimal or Digit. *)
Definition isdigit (c : char) : bool :=
  (in_ranges decimal_ranges c || in_ranges digit_ranges c)%bool.

Definition isupper_ascii (c : char) : bool := ((65 <=? c) && (c <=? 90))%N.

(** [str.lower]: the Basic Latin letters are mapped; the CJK text of the
    program's own literals has no case.  Cased letters of other scripts are
    outside the model. *)
Definition lower_char (c : char) : char :=
  if isupper_ascii c then (c + 32)%N else c.
Definition lower (s : str) : str := map lower_char s.

(** [s.startswith(p)] *)
Fixpoint startswith (s p : str) : bool :=
  match p, s with
  | [], _ => true
  | _ :: _, [] => false
  | c :: p', d :: s' => N.eqb c d && startswith s' p'
  end.

(** [s.endswith(p)] *)
Definition endswith (s p : str) : bool := startswith (rev s) (rev p).

(** [p in s] for a substring. *)
Fixpoint contains (s p : str) : bool :=
  startswith s p ||
  match s with
  | [] => false
  | _ :: s' => contains s' p
  end.

(** [s.find(p)]: index of the first occurrence. *)
Fixpoint find_from (i : nat) (s p : str) : option nat :=
  if startswith s p then Some i
  else match s with
       | [] => None
       | _ :: s' => find_from (S i) s' p
       end.
Definition find (s p : str) : option nat := find_from 0 s p.

(** [s.rfind(p)]: index of the last occurrence. *)
Fixpoint rfind_from (i : nat) (s p : str) : option nat :=
  match s with
  | [] => if startswith s p then Some i else None
  | _ :: s' =>
      match rfind_from (S i) s' p with
      | Some j => Some j
      | None => if startswith s p then Some i else None
      end
  end.
Definition rfind (s p : str) : option nat := rfind_from 0 s p.

Fixpoint lstrip (s : str) : str :=
  match s with
  | c :: s' => if isspace c then lstrip s' else s
  | [] => []
  end.
Definition rstrip (s : str) : str := rev (lstrip (rev s)).
(** [s.strip()] *)
Definition strip (s : str) : str := rstrip (lstrip s).

(** [s.replace(a, b)] for a one-character [a]. *)
Definition replace_char (a : char) (b : str) (s : str) : str :=
  flat_map (fun c => if N.eqb c a then b else [c]) s.

(** [re.split] on a character class. *)
Fixpoint split_class (sep : char -> bool) (s : str) : list str :=
  match s with
  | [] => [[]]
  | c :: s' =>
      if sep c then [] :: split_class sep s'
      else match split_class sep s' with
           | w :: ws => (c :: w) :: ws
           | [] => [[c]]
           end
  end.

(** [s.split(sep)] for a one-character separator. *)
Definition split_char (sep : char) (s : str) : list str :=
  split_class (N.eqb sep) s.

(** [s[i:j]] for [0 <= i]. *)
Definition slice (s : str) (i j : nat) : str := firstn (j - i) (skipn i s).

End Py.

Import Py.


(** ** The [re] module

    A backtracking matcher with Python's priorities: alternatives left to
    right, greedy repetition longest first, lazy repetition shortest first,
    the leftmost start wins.  Every repetition in the program's patterns is
    over a single character class, so repetition is over classes. *)

Module Re.

Definition cls := char -> bool.

Definition cset (s : string) : cls := fun c => mem c (u s).
Definition crange (a b : string) : cls :=
  fun c => (N.leb (ch a) c && N.leb c (ch b))%bool.
Definition cneg (p : cls) : cls := fun c => negb (p c).
Definition cor (p q : cls) : cls := fun c => (p c || q c)%bool.
Definition cchr (a : char) : cls := fun c => N.eqb c a.
(** [[\s\S]], and [.] under [re.DOTALL] *)
Definition call : cls := fun _ => true.
(** [.] without [re.DOTALL] *)
Definition cdot : cls := fun c => negb (N.eqb c NL).
(** [\s] and [\d] *)
Definition cspace : cls := isspace.
Definition cdigit : cls := isdecimal.

Inductive regex :=
| Eps
| Bos                                  (* ^ *)
| Eos                                  (* $ *)
| Cls (p : cls)
| Lit (l : str)
| Seq (a b : regex)
| Alt (a b : regex)
| Opt (a : regex)                      (* a? *)
| Star (greedy : bool) (p : cls)       (* [p]* and [p]*? *)
| Grp (n : nat) (a : regex).           (* the n-th capturing group *)

Definition Plus (greedy : bool) (p : cls) : regex :=
  Seq (Cls p) (Star greedy p).

Fixpoint rseq (rs : list regex) : regex :=
  match rs with
  | [] => Eps
  | [r] => r
  | r :: rs' => Seq r (rseq rs')
  end.

Definition caps := list (nat * str).

(** [m.group(n)]; a group that did not take part reads as empty. *)
Definition group (n : nat) (c : caps) : str :=
  match List.find (fun p => Nat.eqb (fst p) n) c with
  | Some p => snd p
  | None => []
  end.

Definition answer := option (str * caps).
Definition kont := nat -> str -> caps -> answer.

Fixpoint star_greedy (p : cls) (k : kont) (pos : nat) (s : str) (c : caps)
  : answer :=
  match s with
  | x :: s' =>
      if p x then
        match star_greedy p k (S pos) s' c with
        | Some r => Some r
        | None => k pos s c
        end
      else k pos s c
  | [] => k pos s c
  end.

Fixpoint star_lazy (p : cls) (k : kont) (pos : nat) (s : str) (c : caps)
  : answer :=
  match k pos s c with
  | Some r => Some r
  | None =>
      match s with
      | x :: s' => if p x then star_lazy p k (S pos) s' c else None
      | [] => None
      end
  end.

Fixpoint rx (r : regex) (k : kont) (pos : nat) (s : str) (c : caps) : answer :=
  match r with
  | Eps => k pos s c
  | Bos => if Nat.eqb pos 0 then k pos s c else None
  | Eos => match s with
           | [] => k pos s c
           | [x] => if N.eqb x NL then k pos s c else None
           | _ => None
           end
  | Cls p => match s with
             | x :: s' => if p x then k (S pos) s' c else None
             | [] => None
             end
  | Lit l => if startswith s l then k (pos + len l) (skipn (len l) s) c
             else None
  | Seq a b => rx a (fun pos' s' c' => rx b k pos' s' c') pos s c
  | Alt a b => match rx a k pos s c with
               | Some r => Some r
               | None => rx b k pos s c
               end
  | Opt a => match rx a k pos s c with
             | Some r => Some r
             | None => k pos s c
             end
  | Star true p => star_greedy p k pos s c
  | Star false p => star_lazy p k pos s c
  | Grp n a =>
      rx a (fun pos' s' c' => k pos' s' ((n, firstn (pos' - pos) s) :: c'))
         pos s c
  end.

Definition accept : kont := fun _ s c => Some (s, c).

(** Whether the pattern can match the empty string. *)
Fixpoint nullable (r : regex) : bool :=
  match r with
  | Eps | Bos | Eos => true
  | Cls _ => false
  | Lit l => match l with [] => true | _ => false end
  | Seq a b => nullable a && nullable b
  | Alt a b => nullable a || nullable b
  | Opt _ => true
  | Star _ _ => true
  | Grp _ a => nullable a
  end.

Record found := Found
  { m_start : nat;      (* index of the match in the subject *)
    m_text : str;       (* [m.group(0)] *)
    m_rest : str;       (* the subject after the match *)
    m_caps : caps }.

(** A match starting exactly at [pos]. *)
Definition match_at (r : regex) (pos : nat) (s : str) : option found :=
  match rx r accept pos s [] with
  | Some (rest, c) => Some (Found pos (firstn (len s - len rest) s) rest c)
  | None => None
  end.

(** [re.match(r, s)] *)
Definition rmatch (r : regex) (s : str) : option found := match_at r 0 s.

(** The leftmost match in [s], which starts at index [pos] of the subject. *)
Fixpoint search_from (r : regex) (pos : nat) (s : str) : option found :=
  match match_at r pos s with
  | Some m => Some m
  | None =>
      match s with
      | [] => None
      | _ :: s' => search_from r (S pos) s'
      end
  end.

(** [re.search(r, s)] *)
Definition search (r : regex) (s : str) : option found := search_from r 0 s.

(** The scan shared by [re.findall] and [re.sub]: the subject is walked
    from left to right; where a match starts, [hit] is applied to it and the
    walk resumes after the match; a character outside every match goes to
    [miss].  [skip] counts the characters of the last match still to be
    passed.  No pattern of the program matches the empty string; such a
    match is passed over. *)
Fixpoint scan {A : Type} (r : regex) (hit : found -> list A)
  (miss : char -> list A) (pos skip : nat) (s : str) : list A :=
  match s with
  | [] => []
  | x :: s' =>
      match skip with
      | S k => scan r hit miss (S pos) k s'
      | O =>
          match match_at r pos s with
          | Some m =>
              match len (m_text m) with
              | O => miss x ++ scan r hit miss (S pos) 0 s'
              | S k => hit m ++ scan r hit miss (S pos) k s'
              end
          | None => miss x ++ scan r hit miss (S pos) 0 s'
          end
      end
  end.

(** [re.findall(r, s)] for a pattern with one group: the group of each
    successive match. *)
Definition findall (r : regex) (s : str) : list str :=
  scan r (fun m => [group 1 (m_caps m)]) (fun _ => []) 0 0 s.

(** [re.findall(r, s)] for a pattern without a group: the whole matches. *)
Definition findall0 (r : regex) (s : str) : list str :=
  scan r (fun m => [m_text m]) (fun _ => []) 0 0 s.

(** [re.sub(r, template, s)]: every match, left to right and without
    overlap, is replaced by the template applied to its groups. *)
Definition sub (r : regex) (tpl : caps -> str) (s : str) : str :=
  scan r (fun m => tpl (m_caps m)) (fun x => [x]) 0 0 s.

End Re.

Import Re.

(** ** Python values

    The values the program handles: what [json.loads] produces (dictionaries
    keep their insertion order), and [TestScenario] objects. *)

Module Val.

#[warnings="-register-all"]
Inductive pyval :=
| PNone
| PBool (b : bool)
| PNum (lexeme : str)            (* an int or float, by its JSON text *)
| PStr (s : str)
| PList (xs : list pyval)
| PDict (kvs : list (str * pyval))
| PScenario (id description test_cases : pyval).

Definition dict := list (str * pyval).

(** [k in d] *)
Definition has_key (k : str) (d : dict) : bool :=
  existsb (fun kv => str_eqb (fst kv) k) d.

(** [d.get(k)] as an option: [None] when the key is absent. *)
Fixpoint lookup (k : str) (d : dict) : option pyval :=
  match d with
  | [] => None
  | (k', v) :: d' => if str_eqb k' k then Some v else lookup k d'
  end.

(** [d.get(k, default)] *)
Definition get (k : str) (default : pyval) (d : dict) : pyval :=
  match lookup k d with
  | Some v => v
  | None => default
  end.

(** [d[k] = v]: an existing key keeps its place, a new one goes last. *)
Fixpoint set (k : str) (v : pyval) (d : dict) : dict :=
  match d with
  | [] => [(k, v)]
  | (k', v') :: d' =>
      if str_eqb k' k then (k', v) :: d' else (k', v') :: set k v d'
  end.

(** [isinstance(v, list)] *)
Definition is_list (v : pyval) : bool :=
  match v with PList _ => true | _ => false end.

(** The number a JSON lexeme denotes.  The decoder makes an [int] of a
    lexeme without fraction and exponent, and a [float] (a binary64, by
    correct rounding) of any other; [NaN], [Infinity] and [-Infinity] are
    floats that are not zero. *)

Definition ascii_digit (c : char) : bool := (N.leb 48 c && N.leb c 57)%bool.

(** The digits at the head of a text, and the text after them. *)
Fixpoint span_digits (s : str) : str * str :=
  match s with
  | c :: s' =>
      if ascii_digit c
      then let (d, r) := span_digits s' in (c :: d, r)
      else ([], s)
  | [] => ([], [])
  end.

Definition digits_value (d : str) : N :=
  fold_left (fun acc c => (10 * acc + (c - 48))%N) d 0%N.

(** Whether the lexeme has a fraction or an exponent. *)
Definition float_lexeme (s : str) : bool :=
  existsb (fun c => (N.eqb c (ch ".") || N.eqb c (ch "e") || N.eqb c (ch "E"))%bool)
          s.

(** Mantissa and decimal exponent of a lexeme of the number pattern: the
    number is the mantissa times ten to the exponent, up to its sign. *)
Definition decimal_of (s : str) : N * Z :=
  let s := match s with
           | c :: s' => if N.eqb c (ch "-") then s' else s
           | [] => s
           end in
  let (int_part, r1) := span_digits s in
  let (frac, r2) :=
    match r1 with
    | c :: r => if N.eqb c (ch ".") then span_digits r else ([], r1)
    | [] => ([], r1)
    end in
  let e :=
    match r2 with
    | c :: r =>
        if (N.eqb c (ch "e") || N.eqb c (ch "E"))%bool then
          match r with
          | sg :: r' =>
              if N.eqb sg (ch "-")
              then (- Z.of_N (digits_value (fst (span_digits r'))))%Z
              else if N.eqb sg (ch "+")
              then Z.of_N (digits_value (fst (span_digits r')))
              else Z.of_N (digits_value (fst (span_digits r)))
          | [] => 0%Z
          end
        else 0%Z
    | [] => 0%Z
    end in
  (digits_value (int_part ++ frac), (e - Z.of_nat (List.length frac))%Z).

(** A float is zero when its decimal value is at most half the least
    positive binary64, two to the power -1075: such a value rounds to zero
    (the tie goes to the even neighbour, which is zero). *)
Definition rounds_to_zero (m : N) (e : Z) : bool :=
  (N.eqb m 0
   || (Z.ltb e 0 && N.leb (m * 2 ^ 1075) (10 ^ Z.to_N (- e))))%bool.

Definition num_zero (s : str) : bool :=
  match s with
  | [] => true
  | c :: _ =>
      if (N.eqb c (ch "N") || N.eqb c (ch "I"))%bool then false
      else if startswith s (u "-I") then false
      else
        let (m, e) := decimal_of s in
        if float_lexeme s then rounds_to_zero m e else N.eqb m 0
  end.

(** Truth value of [v], as [if v] and [not v] take it.  A [TestScenario]
    object is true. *)
Definition truthy (v : pyval) : bool :=
  match v with
  | PNone => false
  | PBool b => b
  | PNum n => negb (num_zero n)
  | PStr s => match s with [] => false | _ => true end
  | PList xs => match xs with [] => false | _ => true end
  | PDict kvs => match kvs with [] => false | _ => true end
  | PScenario _ _ _ => true
  end.

End Val.

Import Val.

(** ** [json.loads]

    The decoder of Python's [json] module in its default (strict) mode:
    the whitespace is space, tab, newline and carriage return; a string may
    not hold a raw control character; an object's keys are strings, and a
    repeated key keeps the last value; [NaN], [Infinity] and [-Infinity] are
    accepted; an integer of more than 4300 digits is refused; anything
    after the value but whitespace is an error.  Every error is an exception
    of the decoder, for which [None] stands.  The depth to which arrays and
    objects may be nested is what is left of the interpreter's recursion
    limit when the decoder is called; it is no property of the program and
    no part of the model, and a property that concludes from a successful
    decoding bounds the brackets of the text (see [openers]). *)

Module Json.

Definition is_ws (c : char) : bool :=
  (N.eqb c 32 || N.eqb c TAB || N.eqb c NL || N.eqb c CR)%bool.

Fixpoint skip_ws (s : str) : str :=
  match s with
  | c :: s' => if is_ws c then skip_ws s' else s
  | [] => []
  end.

Definition hex_digit (c : char) : option N :=
  if (N.leb 48 c && N.leb c 57)%bool then Some (c - 48)%N
  else if (N.leb 97 c && N.leb c 102)%bool then Some (c - 87)%N
  else if (N.leb 65 c && N.leb c 70)%bool then Some (c - 55)%N
  else None.

Definition hex4 (a b c d : char) : option N :=
  match hex_digit a, hex_digit b, hex_digit c, hex_digit d with
  | Some x, Some y, Some z, Some w => Some (x * 4096 + y * 256 + z * 16 + w)%N
  | _, _, _, _ => None
  end.

Definition high_surrogate (n : N) : bool := (N.leb 55296 n && N.leb n 56319)%bool.
Definition low_surrogate (n : N) : bool := (N.leb 56320 n && N.leb n 57343)%bool.

(** The character a one-letter escape stands for. *)
Definition escape (e : char) : option char :=
  if N.eqb e DQUOTE then Some DQUOTE
  else if N.eqb e BSLASH then Some BSLASH
  else if N.eqb e (ch "/") then Some (ch "/")
  else if N.eqb e (ch "b") then Some 8%N
  else if N.eqb e (ch "f") then Some 12%N
  else if N.eqb e (ch "n") then Some NL
  else if N.eqb e (ch "r") then Some CR
  else if N.eqb e (ch "t") then Some TAB
  else None.

(** The body of a string, after its opening quote; [acc] holds the decoded
    characters in reverse. *)
Fixpoint jstring (s : str) (acc : str) : option (str * str) :=
  match s with
  | [] => None
  | c :: s1 =>
      if N.eqb c DQUOTE then Some (rev acc, s1)
      else if N.ltb c 32 then None
      else if N.eqb c BSLASH then
        match s1 with
        | [] => None
        | e :: s2 =>
            if N.eqb e (ch "u") then
              match s2 with
              | h1 :: h2 :: h3 :: h4 :: s3 =>
                  match hex4 h1 h2 h3 h4 with
                  | None => None
                  | Some n =>
                      if high_surrogate n then
                        match s3 with
                        | b :: v :: l1 :: l2 :: l3 :: l4 :: s4 =>
                            if (N.eqb b BSLASH && N.eqb v (ch "u"))%bool then
                              match hex4 l1 l2 l3 l4 with
                              | None => None
                              | Some m =>
                                  if low_surrogate m then
                                    jstring s4
                                      ((65536 + (n - 55296) * 1024
                                        + (m - 56320))%N :: acc)
                                  else jstring s3 (n :: acc)
                              end
                            else jstring s3 (n :: acc)
                        | _ => jstring s3 (n :: acc)
                        end
                      else jstring s3 (n :: acc)
                  end
              | _ => None
              end
            else
              match escape e with
              | Some x => jstring s2 (x :: acc)
              | None => None
              end
        end
      else jstring s1 (c :: acc)
  end.

Definition d09 : cls := crange "0" "9".

(** The scanner's number pattern: an optional minus; [0], or a digit from 1
    to 9 followed by digits; an optional fraction; an optional exponent. *)
Definition NUMBER_RE : regex :=
  rseq [ Opt (Lit (u "-"));
         Alt (Lit (u "0")) (Seq (Cls (crange "1" "9")) (Star true d09));
         Opt (Seq (Lit (u ".")) (Plus true d09));
         Opt (rseq [Cls (cset "eE"); Opt (Cls (cset "-+")); Plus true d09]) ].

(** The interpreter's limit on the digits of an integer read from a text
    ([sys.int_info.default_max_str_digits]): [int] raises [ValueError] on a
    lexeme without fraction and exponent that has more digits.  A float has
    no such limit. *)
Definition int_max_str_digits : nat := 4300.

Definition too_long (lexeme : str) : bool :=
  (negb (float_lexeme lexeme)
   && (int_max_str_digits <? List.length (filter ascii_digit lexeme)))%bool.

(** The scalar forms: [null], [true], [false], a number, [NaN], [Infinity],
    [-Infinity], tried in the scanner's order. *)
Definition scalar (s : str) : option (pyval * str) :=
  if startswith s (u "null") then Some (PNone, skipn 4 s)
  else if startswith s (u "true") then Some (PBool true, skipn 4 s)
  else if startswith s (u "false") then Some (PBool false, skipn 5 s)
  else match rmatch NUMBER_RE s with
       | Some m =>
           if too_long (m_text m) then None
           else Some (PNum (m_text m), m_rest m)
       | None =>
           if startswith s (u "NaN") then Some (PNum (u "NaN"), skipn 3 s)
           else if startswith s (u "Infinity")
           then Some (PNum (u "Infinity"), skipn 8 s)
           else if startswith s (u "-Infinity")
           then Some (PNum (u "-Infinity"), skipn 9 s)
           else None
       end.

(** One value at the head of [s], with the text after it.  [fuel] bounds the
    number of values, members and elements opened one inside or after the
    other; [loads] gives the length of the text plus one, which is enough
    (lemma [loads_fuel_enough]). *)
Fixpoint value (fuel : nat) (s : str) : option (pyval * str) :=
  match fuel with
  | O => None
  | S f =>
      match s with
      | [] => None
      | c :: s1 =>
          if N.eqb c DQUOTE then
            match jstring s1 [] with
            | Some (t, r) => Some (PStr t, r)
            | None => None
            end
          else if N.eqb c (ch "{") then
            match skip_ws s1 with
            | x :: r => if N.eqb x (ch "}") then Some (PDict [], r)
                        else members f (skip_ws s1) []
            | [] => None
            end
          else if N.eqb c (ch "[") then
            match skip_ws s1 with
            | x :: r => if N.eqb x (ch "]") then Some (PList [], r)
                        else elements f (skip_ws s1) []
            | [] => None
            end
          else scalar s
      end
  end

with members (fuel : nat) (s : str) (acc : dict) : option (pyval * str) :=
  match fuel with
  | O => None
  | S f =>
      match s with
      | q :: s1 =>
          if N.eqb q DQUOTE then
            match jstring s1 [] with
            | None => None
            | Some (k, s2) =>
                match skip_ws s2 with
                | colon :: s3 =>
                    if N.eqb colon (ch ":") then
                      match value f (skip_ws s3) with
                      | None => None
                      | Some (v, s4) =>
                          match skip_ws s4 with
                          | x :: s5 =>
                              if N.eqb x (ch "}")
                              then Some (PDict (set k v acc), s5)
                              else if N.eqb x (ch ",")
                              then members f (skip_ws s5) (set k v acc)
                              else None
                          | [] => None
                          end
                      end
                    else None
                | [] => None
                end
            end
          else None
      | [] => None
      end
  end

with elements (fuel : nat) (s : str) (acc : list pyval)
  : option (pyval * str) :=
  match fuel with
  | O => None
  | S f =>
      match value f s with
      | None => None
      | Some (v, s1) =>
          match skip_ws s1 with
          | x :: s2 =>
              if N.eqb x (ch "]") then Some (PList (acc ++ [v]), s2)
              else if N.eqb x (ch ",")
              then elements f (skip_ws s2) (acc ++ [v])
              else None
          | [] => None
          end
      end
  end.

(** [json.loads(s)]; [None] stands for the [JSONDecodeError] raised. *)
Definition loads (s : str) : option pyval :=
  match value (S (len s)) (skip_ws s) with
  | Some (v, r) => match skip_ws r with [] => Some v | _ => None end
  | None => None
  end.

End Json.

Import Json.

(** ** The agent

    The methods of [RequirementAnalystAgent] that work on the text.  Each
    extractor wraps its body in [try ... except Exception]; on a [str]
    argument no statement of these bodies raises, so the handlers are not
    part of the model.  Logging is left out. *)

Module Agent.

(** Modelled from the spec: [TestScenario] (src/schemas/communication.py is
    not among the sources) is a value with the three fields [id],
    [description] and [test_cases]; constructing one stores its arguments. *)
Definition TestScenario (id description test_cases : pyval) : pyval :=
  PScenario id description test_cases.

Definition nonempty (s : str) : bool :=
  match s with [] => false | _ => true end.

(** [any(marker in s for marker in markers)] *)
Definition any_in (markers : list str) (s : str) : bool :=
  existsb (contains s) markers.

(** [f"TS{n:03d}"] *)
Definition digits (n : nat) : str :=
  u (NilZero.string_of_uint (Nat.to_uint n)).
Definition pad3 (d : str) : str := repeat (ch "0") (3 - len d) ++ d.
Definition ts_id (n : nat) : str := u "TS" ++ pad3 (digits n).

(** [''.join(char for char in line.strip() if ord(char) >= 32)] *)
Definition clean_line (line : str) : str :=
  filter (fun c => N.leb 32 c) (strip line).

(** *** SectionExtractor: functional requirements *)

Definition title_patterns : list str :=
  [ u "功能需求"; u "functionalrequirements"; u "功能列表"; u "功能点";
    u "feature"; u "functional spec"; u "功能规格"; u "核心功能" ].

Definition exit_patterns : list str :=
  [ u "非功能需求"; u "non-functional"; u "非功能性需求";
    u "性能需求"; u "约束条件"; u "测试场景" ].

Definition numbered_pattern : regex :=
  rseq [ Bos;
         Opt (Cls (cset "(（[【"));
         Cls (cor cdigit (cor (crange "A" "Z") (cor (crange "a" "z")
                (cset "一二三四五六七八九十"))));
         Cls (cset "]）】.、") ].

(** The class of line 316; it also lists the private-use code point
    U+F0B7 (61623), written here by its number. *)
Definition bullet_pattern : regex :=
  rseq [ Bos; Cls (cor (cset "-*•›➢▷✓✔⦿◉◆◇■□●○") (cchr 61623%N)) ].

Definition special_chars_1 : regex :=
  Cls (cor (cset "【】〖〗“”‘’§※★☆♀♂") (crange "😀" "🙏")).
Definition special_chars_2 : regex :=
  Cls (cor (cset "【】〖〗“”‘’") (crange "😀" "🙏")).
Definition special_chars_3 : regex :=
  Cls (cset "【】〖〗“”‘’").

Definition trailing_colon : regex := rseq [ Cls (cset "：:"); Eos ].

Definition business_verbs : list str :=
  [ u "应"; u "需要"; u "支持"; u "实现"; u "提供"; u "确保"; u "允许" ].

Definition delete (r : regex) (s : str) : str := sub r (fun _ => []) s.

Definition is_some {A} (o : option A) : bool :=
  match o with Some _ => true | None => false end.

(** The body run for a line inside the functional section (lines 306-348):
    the list after the line has been handled. *)
Definition functional_entry (line : str) (functional_reqs : list str)
  : list str :=
  let content := strip line in
  let content :=
    if is_some (rmatch numbered_pattern content)
    then strip (delete numbered_pattern content) else content in
  let content :=
    if is_some (rmatch bullet_pattern content)
    then strip (skipn 1 content) else content in
  let content := strip (delete special_chars_1 content) in
  if (nonempty content && (3 <? len content) && (len content <? 100)
      && existsb (contains content) business_verbs)%bool
  then functional_reqs ++ [content]
  else
    let content := strip (delete special_chars_2 content) in
    let content := strip (delete special_chars_3 content) in
    if (nonempty content && (3 <? len content)
        && negb (is_some (search trailing_colon content)))%bool
    then functional_reqs ++ [content]
    else
      let content :=
        if startswith content (u "-") then strip (skipn 1 content)
        else content in
      functional_reqs ++ [content].

Fixpoint functional_loop (sections : list str) (in_functional_section : bool)
  (functional_reqs : list str) : list str :=
  match sections with
  | [] => functional_reqs
  | raw :: rest =>
      let line := clean_line raw in
      if negb (nonempty line)
      then functional_loop rest in_functional_section functional_reqs
      else
        let cleaned_line :=
          replace_char (ch " ") []
            (replace_char (ch "：") (u ":") (lower line)) in
        if any_in title_patterns cleaned_line
        then functional_loop rest true functional_reqs
        else if any_in exit_patterns cleaned_line
        then functional_reqs
        else if in_functional_section
        then functional_loop rest in_functional_section
               (functional_entry line functional_reqs)
        else functional_loop rest in_functional_section functional_reqs
  end.

Definition _extract_functional_reqs (message : str) : list str :=
  if negb (nonempty message) then []
  else
    let functional_reqs := functional_loop (split_char NL message) false [] in
    match functional_reqs with
    | [] => [u "需要提供具体的功能需求"]
    | _ => functional_reqs
    end.

(** *** SectionExtractor: the three other fields

    [_extract_non_functional_reqs], [_extract_test_scenarios] and
    [_extract_risk_areas] run the same loop; they differ in the heading
    markers, in the test that ends the scan and in the prefixes of a heading
    echo. *)

(** [content.startswith(('-', '*', '•'))] *)
Definition starts_with_bullet (content : str) : bool :=
  (startswith content (u "-") || startswith content (u "*")
   || startswith content (u "•"))%bool.

(** [line.split(sep, 1)[1]] *)
Fixpoint after_first (sep : char) (line : str) : str :=
  match line with
  | [] => []
  | c :: rest => if N.eqb c sep then rest else after_first sep rest
  end.

(** The [for sep in ['.', '、', '）', ')', ']']] loop. *)
Fixpoint cut_number (seps : list char) (line : str) : str :=
  match seps with
  | [] => line
  | sep :: seps' =>
      if mem sep line then after_first sep line else cut_number seps' line
  end.

Definition numbering_seps : list char := u ".、）)]".

(** The body run for a line inside a section: the list after the line. *)
Definition section_entry (prefixes : list str) (line : str)
  (items : list str) : list str :=
  let content := line in
  let content :=
    if starts_with_bullet content then strip (skipn 1 content)
    else if existsb isdigit (firstn 2 line)
    then cut_number numbering_seps line
    else content in
  let content := strip content in
  if (nonempty content
      && negb (existsb (fun prefix => startswith (lower content) (lower prefix))
                 prefixes))%bool
  then
    let content :=
      if startswith content (u "-") then strip (skipn 1 content)
      else content in
    items ++ [content]
  else items.

Fixpoint section_loop (enter leave : str -> bool) (prefixes : list str)
  (sections : list str) (in_section : bool) (items : list str) : list str :=
  match sections with
  | [] => items
  | raw :: rest =>
      let line := clean_line raw in
      if negb (nonempty line)
      then section_loop enter leave prefixes rest in_section items
      else if enter line
      then section_loop enter leave prefixes rest true items
      else if leave line
      then items
      else if in_section
      then section_loop enter leave prefixes rest in_section
             (section_entry prefixes line items)
      else section_loop enter leave prefixes rest in_section items
  end.

Definition heading (markers : list str) (line : str) : bool :=
  any_in markers (lower line).

Definition non_functional_markers : list str :=
  [ u "2. 非功能需求"; u "非功能需求:"; u "非功能需求："; u "### 2. 非功能需求" ].
Definition scenario_markers : list str :=
  [ u "3. 测试场景"; u "测试场景:"; u "测试场景："; u "### 3. 测试场景" ].
Definition risk_markers : list str :=
  [ u "4. 风险领域"; u "风险领域:"; u "风险领域："; u "### 4. 风险领域" ].

Definition _extract_non_functional_reqs (message : str) : list str :=
  if negb (nonempty message) then []
  else
    section_loop (heading non_functional_markers) (heading scenario_markers)
      [ u "2."; u "二、"; u "非功能需求"; u "需求"; u "要求"; u "**"; u "#" ]
      (split_char NL message) false [].

Definition default_scenario : pyval :=
  TestScenario (PStr (u "TS001")) (PStr (u "需要提供具体的测试场景")) (PList []).

(** [for i, description in enumerate(scenario_descriptions)], with [i]
    starting at [i0]. *)
Fixpoint number_scenarios (i0 : nat) (scenario_descriptions : list str)
  : list pyval :=
  match scenario_descriptions with
  | [] => []
  | description :: rest =>
      TestScenario (PStr (ts_id (i0 + 1))) (PStr description) (PList [])
        :: number_scenarios (S i0) rest
  end.

Definition scenario_descriptions_of (message : str) : list str :=
  section_loop (heading scenario_markers) (heading risk_markers)
    [ u "3."; u "三、"; u "测试场景"; u "场景"; u "**"; u "#" ]
    (split_char NL message) false [].

Definition _extract_test_scenarios (message : str) : list pyval :=
  if negb (nonempty message) then []
  else
    match number_scenarios 0 (scenario_descriptions_of message) with
    | [] => [default_scenario]
    | test_scenarios => test_scenarios
    end.

(** [line.startswith('5.') or not line.strip()] *)
Definition risk_exit (line : str) : bool :=
  (startswith line (u "5.") || negb (nonempty (strip line)))%bool.

Definition _extract_risk_areas (message : str) : list str :=
  if negb (nonempty message) then []
  else
    section_loop (heading risk_markers) risk_exit
      [ u "4."; u "四、"; u "风险领域"; u "风险"; u "**"; u "#" ]
      (split_char NL message) false [].

(** *** ResultFinalizer *)

Definition required_keys : list str :=
  [ u "functional_requirements"; u "non_functional_requirements";
    u "test_scenarios"; u "risk_areas" ].

Definition _validate_analysis_result (result : dict) : bool :=
  forallb (fun key =>
             match lookup key result with
             | Some v => is_list v
             | None => false
             end) required_keys.

Definition default_value : pyval := PList [PStr (u "需要补充具体内容")].

(** The dictionary is changed in place; the changed dictionary is the
    result. *)
Definition _fill_missing_requirements (result : dict) : dict :=
  fold_left (fun result key =>
               match lookup key result with
               | Some v => if truthy v then result
                           else set key default_value result
               | None => set key default_value result
               end) required_keys result.

Definition default_result : dict :=
  [ (u "functional_requirements", PList [PStr (u "需要提供具体的功能需求")]);
    (u "non_functional_requirements",
       PList [PStr (u "需要提供具体的非功能需求")]);
    (u "test_scenarios", PList [default_scenario]);
    (u "risk_areas", PList [PStr (u "需要评估具体的风险领域")]) ].

(** *** StructureValidator *)

Fixpoint braces_balanced (s : str) (brace_count : Z) : bool :=
  match s with
  | [] => Z.eqb brace_count 0
  | c :: s' =>
      let brace_count :=
        if N.eqb c (ch "{") then (brace_count + 1)%Z
        else if N.eqb c (ch "}") then (brace_count - 1)%Z
        else brace_count in
      if Z.ltb brace_count 0 then false else braces_balanced s' brace_count
  end.

Definition _is_valid_json_format (json_str : str) : bool :=
  let json_str := strip json_str in
  if negb (startswith json_str (u "{") && endswith json_str (u "}"))
  then false
  else if negb (mem DQUOTE json_str) then false
  else braces_balanced json_str 0.

(** *** PayloadRepairer *)

(** [s.rfind(p)], which is -1 when [p] does not occur. *)
Definition rfindZ (s p : str) : Z :=
  match rfind s p with
  | Some i => Z.of_nat i
  | None => (-1)%Z
  end.

(** A literal that holds double quotes, written with ['] in their place. *)
Definition q (s : string) : str :=
  map (fun c => if N.eqb c (ch "'") then DQUOTE else c) (u s).

Definition not_backslash : cls := cneg (cchr BSLASH).
Definition not_quote : cls := cneg (cchr DQUOTE).

(** The pattern of line 616: a character that is no backslash, a quote,
    characters that are no quote (as few as possible), a character that is no
    backslash, a quote. *)
Definition quote_pattern : regex :=
  rseq [ Grp 1 (Cls not_backslash); Lit [DQUOTE];
         Grp 2 (Star false not_quote);
         Grp 3 (Cls not_backslash); Lit [DQUOTE] ].

Definition quote_template (c : caps) : str :=
  group 1 c ++ [DQUOTE] ++ group 2 c ++ group 3 c ++ [DQUOTE].

(** [json_str[:n] + t] for an index [n >= 0]. *)
Definition cut_and_close (json_str : str) (n : Z) (t : string) : str :=
  firstn (Z.to_nat n) json_str ++ u t.

Definition _fix_json_format (json_str : str) : str :=
  let json_str := sub quote_pattern quote_template json_str in
  let json_str :=
    replace_char CR [BSLASH; ch "r"]
      (replace_char NL [BSLASH; ch "n"] json_str) in
  let json_str := replace_char TAB [BSLASH; ch "t"] json_str in
  if (startswith (strip json_str) (u "{")
      && negb (endswith (strip json_str) (u "}")))%bool
  then
    let last_complete_pair :=
      Z.max (Z.max (rfindZ json_str (q "',"))
                   (rfindZ json_str (q "'],")))
            (rfindZ json_str (q "'},")) in
    if Z.ltb 0 last_complete_pair
    then cut_and_close json_str (last_complete_pair + 2) "}"
    else json_str
  else json_str.

Definition alpha : cls := cor (crange "a" "z") (crange "A" "Z").
Definition alnum : cls := cor alpha (crange "0" "9").

(** The five substitutions of [_fix_json_aggressive], in order. *)
Definition between_arrays : regex :=
  rseq [ Grp 1 (Lit (u "]")); Star true cspace; Grp 2 (Lit (u "[")) ].
Definition between_quotes : regex :=
  rseq [ Grp 1 (Lit [DQUOTE]); Star true cspace; Grp 2 (Lit [DQUOTE]) ].
Definition bare_key : regex :=
  rseq [ Grp 1 (Cls (cset "{,")); Star true cspace;
         Grp 2 (Seq (Cls (cor alpha (cset "_")))
                    (Star true (cor alnum (cset "_"))));
         Star true cspace; Lit (u ":") ].
Definition bare_value : regex :=
  rseq [ Lit (u ":"); Star true cspace;
         Grp 1 (Seq (Cls alpha) (Star false (cor alnum cspace)));
         Grp 2 (Cls (cset ",}")) ].
Definition bare_element : regex :=
  rseq [ Lit (u "["); Star true cspace;
         Grp 1 (Seq (Cls alpha) (Star false (cor alnum cspace)));
         Star true cspace; Grp 2 (Cls (cset ",]")) ].

(** [json_str[i]] *)
Definition char_at (s : str) (i : Z) : char := nth (Z.to_nat i) s 0%N.

Definition _fix_json_aggressive (json_str : str) : str :=
  let json_str :=
    sub between_arrays (fun c => group 1 c ++ u "," ++ group 2 c) json_str in
  let json_str :=
    sub between_quotes (fun c => group 1 c ++ u "," ++ group 2 c) json_str in
  let json_str :=
    sub bare_key (fun c => group 1 c ++ [DQUOTE] ++ group 2 c ++ q "':")
        json_str in
  let json_str :=
    sub bare_value (fun c => q ": '" ++ group 1 c ++ [DQUOTE] ++ group 2 c)
        json_str in
  let json_str :=
    sub bare_element (fun c => q "['" ++ group 1 c ++ [DQUOTE] ++ group 2 c)
        json_str in
  let json_str :=
    if (startswith (strip json_str) (u "{")
        && negb (endswith (strip json_str) (u "}")))%bool
    then
      let last_valid_pos :=
        Z.max (Z.max (Z.max (rfindZ json_str (q "',"))
                            (rfindZ json_str (q "'],")))
                     (rfindZ json_str (q "'},")))
              (rfindZ json_str [DQUOTE]) in
      if Z.ltb 0 last_valid_pos
      then
        if N.eqb (char_at json_str last_valid_pos) (ch ",")
        then cut_and_close json_str last_valid_pos "}"
        else if N.eqb (char_at json_str last_valid_pos) DQUOTE
        then cut_and_close json_str (last_valid_pos + 1) "}"
        else cut_and_close json_str (last_valid_pos + 2) "}"
      else json_str
    else json_str in
  if (startswith (strip json_str) (u "[")
      && negb (endswith (strip json_str) (u "]")))%bool
  then
    let last_valid_pos :=
      Z.max (Z.max (Z.max (rfindZ json_str (q "',"))
                          (rfindZ json_str (u "},")))
                   (rfindZ json_str [DQUOTE]))
            (rfindZ json_str (u "}")) in
    if Z.ltb 0 last_valid_pos
    then
      if N.eqb (char_at json_str last_valid_pos) (ch ",")
      then cut_and_close json_str last_valid_pos "]"
      else if (N.eqb (char_at json_str last_valid_pos) DQUOTE
               || N.eqb (char_at json_str last_valid_pos) (ch "}"))%bool
      then cut_and_close json_str (last_valid_pos + 1) "]"
      else cut_and_close json_str (last_valid_pos + 2) "]"
    else json_str
  else json_str.

(** *** RecordBuilder *)

(** The loop over [parsed_result["test_scenarios"]]: entries that are no
    dictionary are passed over. *)
Fixpoint build_scenarios (entries : list pyval) (test_scenarios : list pyval)
  : list pyval :=
  match entries with
  | [] => test_scenarios
  | PDict scenario :: rest =>
      build_scenarios rest
        (test_scenarios ++
           [ TestScenario
               (get (u "id") (PStr (ts_id (Datatypes.length test_scenarios + 1)))
                    scenario)
               (get (u "description") (PStr []) scenario)
               (get (u "test_cases") (PList []) scenario) ])
  | _ :: rest => build_scenarios rest test_scenarios
  end.

Definition _build_structured_result (parsed_result : dict) : dict :=
  let structured_result :=
    [ (u "functional_requirements",
         get (u "functional_requirements") (PList []) parsed_result);
      (u "non_functional_requirements",
         get (u "non_functional_requirements") (PList []) parsed_result);
      (u "risk_areas", get (u "risk_areas") (PList []) parsed_result) ] in
  match lookup (u "test_scenarios") parsed_result with
  | Some (PList entries) =>
      set (u "test_scenarios") (PList (build_scenarios entries []))
          structured_result
  | _ =>
      set (u "test_scenarios") (PList [default_scenario]) structured_result
  end.

(** *** LabelExtractor *)

(** [label[：:]\s*(.+)]: the label, a colon of either width, whitespace, and
    the rest of the line as group 1.  The patterns are compiled with
    [re.IGNORECASE], which changes nothing for labels without cased
    letters. *)
Definition label_pattern (label : string) : regex :=
  rseq [ Lit (u label); Cls (cset "：:"); Star true cspace;
         Grp 1 (Plus true cdot) ].

Definition functional_patterns : list regex :=
  map label_pattern [ "功能需求"; "功能要求"; "主要功能"; "核心功能" ]%string.
Definition non_functional_patterns : list regex :=
  map label_pattern [ "非功能需求"; "性能要求"; "质量要求"; "约束条件" ]%string.
Definition test_scenario_patterns : list regex :=
  map label_pattern [ "测试场景"; "测试用例"; "测试情况" ]%string.
Definition risk_patterns : list regex :=
  map label_pattern [ "风险领域"; "潜在风险"; "风险点"; "注意事项" ]%string.

(** The [for pattern in patterns] loop up to its [break]: the matches of the
    first pattern that has any. *)
Fixpoint first_matches (patterns : list regex) (response_str : str)
  : list str :=
  match patterns with
  | [] => []
  | pattern :: rest =>
      match findall pattern response_str with
      | [] => first_matches rest response_str
      | matches => matches
      end
  end.

(** [re.split(r'[,，、;；]', match.strip())] *)
Definition split_list (m : str) : list str :=
  split_class (cset ",，、;；") (strip m).

Definition long_enough (req : str) : bool :=
  (nonempty req && (2 <? len req))%bool.

Definition label_items (patterns : list regex) (response_str : str)
  : list str :=
  flat_map (fun m => filter long_enough (map strip (split_list m)))
           (first_matches patterns response_str).

Definition scenario_dict (id description : str) : pyval :=
  PDict [ (u "id", PStr id); (u "description", PStr description);
          (u "test_cases", PList []) ].

(** [for i, scenario in enumerate(scenarios)], with [i] starting at [i0]. *)
Fixpoint label_scenarios_of (i0 : nat) (scenarios : list str) : list pyval :=
  match scenarios with
  | [] => []
  | scenario :: rest =>
      let scenario := strip scenario in
      (if long_enough scenario
       then [scenario_dict (ts_id (i0 + 1)) scenario] else [])
        ++ label_scenarios_of (S i0) rest
  end.

Definition label_scenarios (response_str : str) : list pyval :=
  flat_map (fun m => label_scenarios_of 0 (split_list m))
           (first_matches test_scenario_patterns response_str).

Definition strings (l : list str) : pyval := PList (map PStr l).

Definition or_default (items : list pyval) (default : list pyval) : pyval :=
  match items with
  | [] => PList default
  | _ => PList items
  end.

Definition _extract_fallback_from_text (response_str : str) : dict :=
  [ (u "functional_requirements",
       or_default (map PStr (label_items functional_patterns response_str))
         [PStr (u "需要根据具体需求文档确定功能需求")]);
    (u "non_functional_requirements",
       or_default (map PStr (label_items non_functional_patterns response_str))
         [PStr (u "性能要求"); PStr (u "安全要求"); PStr (u "可用性要求")]);
    (u "test_scenarios",
       or_default (label_scenarios response_str)
         [scenario_dict (u "TS001") (u "需要根据具体需求确定测试场景")]);
    (u "risk_areas",
       or_default (map PStr (label_items risk_patterns response_str))
         [PStr (u "数据安全风险"); PStr (u "系统性能风险");
          PStr (u "用户体验风险")]) ].

(** *** The fallback search for a payload *)

Definition not_brace : cls := cneg (cset "{}").

Definition flat_object_with (key : string) : regex :=
  rseq [ Lit (u "{"); Star true not_brace;
         Lit ([DQUOTE] ++ u key ++ [DQUOTE]);
         Star true not_brace; Lit (u "}") ].

Definition fallback_patterns : list regex :=
  map flat_object_with
      [ "functional_requirements"; "test_scenarios"; "risk_areas" ]%string.

Definition count_brace (c : char) (brace_count : Z) : Z :=
  if N.eqb c (ch "{") then (brace_count + 1)%Z
  else if N.eqb c (ch "}") then (brace_count - 1)%Z
  else brace_count.

(** [for i in range(start_pos, -1, -1)]: the index at which the count
    reaches 1. *)
Fixpoint scan_back (s : str) (i : nat) (brace_count : Z) : option nat :=
  let brace_count := count_brace (nth i s 0%N) brace_count in
  if Z.eqb brace_count 1 then Some i
  else match i with
       | O => None
       | S i' => scan_back s i' brace_count
       end.

(** [for i in range(start_pos + len(match), len(response_str))] over the
    text from index [i] on: [i + 1] where the count reaches 0. *)
Fixpoint scan_forward (rest : str) (i : nat) (brace_count : Z) : option nat :=
  match rest with
  | [] => None
  | c :: rest' =>
      let brace_count := count_brace c brace_count in
      if Z.eqb brace_count 0 then Some (i + 1)
      else scan_forward rest' (S i) brace_count
  end.

(** What one match of the fallback search yields: [Some] when the function
    returns from inside the loop, [None] when the loop goes on. *)
Definition try_match (response_str m : str) : option dict :=
  match find response_str m with
  | None => None
  | Some start_pos =>
      let start_brace :=
        match scan_back response_str start_pos 0 with
        | Some i => i
        | None => start_pos
        end in
      let end_brace :=
        match scan_forward (skipn (start_pos + len m) response_str)
                (start_pos + len m) 0 with
        | Some i => i
        | None => start_pos + len m
        end in
      let full_json := slice response_str start_brace end_brace in
      let fixed_json := _fix_json_format full_json in
      let fixed_json :=
        if negb (_is_valid_json_format fixed_json)
        then _fix_json_aggressive fixed_json else fixed_json in
      if _is_valid_json_format fixed_json
      then match loads fixed_json with
           | Some (PDict parsed_result) =>
               Some (_build_structured_result parsed_result)
           | Some _ => None
           | None => None          (* the decoder raised: [continue] *)
           end
      else None
  end.

Fixpoint first_result (response_str : str) (matches : list str)
  : option dict :=
  match matches with
  | [] => None
  | m :: rest =>
      match try_match response_str m with
      | Some result => Some result
      | None => first_result response_str rest
      end
  end.

Definition _extract_json_fallback (response_str : str) : dict :=
  match first_result response_str
          (flat_map (fun pattern => findall0 pattern response_str)
                    fallback_patterns) with
  | Some result => result
  | None => _extract_fallback_from_text response_str
  end.

(** *** PayloadLocator *)

Definition fence : str := u "```".

Definition locator_patterns : list regex :=
  [ rseq [ Lit fence; Opt (Lit (u "json")); Star true cspace;
           Grp 1 (rseq [ Lit (u "{"); Star true cspace; Lit [DQUOTE];
                         Star false call; Lit (u "}") ]);
           Star true cspace; Lit fence ];
    Grp 1 (rseq [ Lit (u "{"); Star true call;
                  Lit (q "'functional_requirements'");
                  Star true call; Lit (u "}") ]);
    Grp 1 (rseq [ Lit (u "{"); Star true call; Lit (u "}") ]);
    Grp 1 (rseq [ Lit (u "{"); Star true not_brace; Lit [DQUOTE];
                  Star true not_brace; Lit [DQUOTE];
                  Star true not_brace; Lit (u "}") ]);
    Grp 1 (rseq [ Lit (u "{"); Star true not_brace; Lit (u "}") ]) ].

(** The chain of [re.search] calls of lines 164-180: [json_match.group(1)]
    of the first pattern that matches. *)
Fixpoint locate (patterns : list regex) (response_str : str) : option str :=
  match patterns with
  | [] => None
  | pattern :: rest =>
      match search pattern response_str with
      | Some m => Some (group 1 (m_caps m))
      | None => locate rest response_str
      end
  end.

Definition fence_marks : regex :=
  Alt (Lit (u "```json")) (Lit (u "```")).

(** Lines 184-231: the structured result when a payload was located. *)
Definition from_payload (response_str json_str : str) : dict :=
  let json_str := strip json_str in
  let json_str := delete fence_marks json_str in
  let json_str := _fix_json_format json_str in
  if negb (_is_valid_json_format json_str)
  then
    let json_str := _fix_json_aggressive json_str in
    if negb (_is_valid_json_format json_str)
    then _extract_json_fallback response_str
    else match loads json_str with
         | Some (PDict parsed_result) =>
             _build_structured_result parsed_result
         | Some _ => _extract_json_fallback response_str
         | None => _extract_json_fallback response_str
         end
  else match loads json_str with
       | Some (PDict parsed_result) => _build_structured_result parsed_result
       | Some _ => _extract_json_fallback response_str
       | None => _extract_json_fallback response_str
       end.

(** Lines 236-241: the four heading-driven extractors. *)
Definition from_sections (response_str : str) : dict :=
  [ (u "functional_requirements",
       strings (_extract_functional_reqs response_str));
    (u "non_functional_requirements",
       strings (_extract_non_functional_reqs response_str));
    (u "test_scenarios", PList (_extract_test_scenarios response_str));
    (u "risk_areas", strings (_extract_risk_areas response_str)) ].

(** Lines 243-246. *)
Definition finalize (structured_result : dict) : dict :=
  if negb (_validate_analysis_result structured_result)
  then _fill_missing_requirements structured_result
  else structured_result.

(** Lines 163-246: the record recovered from the response text. *)
Definition recover (response_str : str) : dict :=
  let structured_result :=
    match locate locator_patterns response_str with
    | Some json_str => Some (from_payload response_str json_str)
    | None => None
    end in
  let structured_result :=
    match structured_result with
    | Some [] => from_sections response_str
    | Some d => d
    | None => from_sections response_str
    end in
  finalize structured_result.

(** *** [analyze]

    The collaborators are arguments, and each may raise: the chat set-up of
    lines 113-143, whose exception [analyze] raises again; the reading of
    the agent's last message and its conversion to text (lines 147-158),
    which yields the text of the answer, or nothing when the response is
    falsy; and the store of [AgentIO].  The agent's state is its
    [last_analysis] slot.

    The import of line 161 makes [TestScenario] a local name of the whole
    body of [analyze].  The branch for an empty document reads the name at
    line 101, before the import has run: the interpreter raises
    [UnboundLocalError], the handler of lines 263-265 raises it again, and
    nothing is stored. *)

(** An exception of a collaborator, by its message [str(e)], or the
    interpreter's [UnboundLocalError] for a local name. *)
Inductive exn :=
| Exception (message : str)
| UnboundLocalError (name : str).

(** [str(e)]; for [UnboundLocalError] in the wording of CPython 3.11. *)
Definition str_of (e : exn) : str :=
  match e with
  | Exception message => message
  | UnboundLocalError name =>
      u "cannot access local variable '" ++ name
        ++ u "' where it is not associated with a value"
  end.

Inductive outcome (A : Type) :=
| Returns (a : A)
| Raises (e : exn).
Arguments Returns {A} a.
Arguments Raises {A} e.

Record collaborators := Collaborators
  { initiate_chat : option exn;               (* lines 113-143 *)
    last_message : outcome (option str);      (* lines 147-158 *)
    save_result : dict -> option exn }.       (* line 249 *)

Record agent := Self { last_analysis : option dict }.

Definition error_result (e : exn) : dict :=
  [ (u "error", PStr (u "结果生成失败")); (u "details", PStr (str_of e)) ].

Definition _get_default_result (self : agent) : dict * agent :=
  (default_result, Self (Some default_result)).

Definition analyze (io : collaborators) (self : agent) (doc_content : str)
  : outcome dict * agent :=
  if negb (nonempty doc_content && nonempty (strip doc_content))
  then (Raises (UnboundLocalError (u "TestScenario")), self)
  else
    match initiate_chat io with
    | Some e => (Raises e, self)
    | None =>
        match last_message io with
        | Raises e => (Returns (error_result e), self)
        | Returns None =>
            let (r, self) := _get_default_result self in (Returns r, self)
        | Returns (Some response_str) =>
            let structured_result := recover response_str in
            match save_result io structured_result with
            | Some e => (Returns (error_result e), self)
            | None =>
                (Returns structured_result, Self (Some structured_result))
            end
        end
    end.

End Agent.

Import Agent.

(** ** Vocabulary of the properties *)

(** A text written on one line: ['] stands for the double quote and [|] for
    a line break. *)
Definition text (s : string) : str :=
  map (fun c => if N.eqb c (ch "'") then DQUOTE
                else if N.eqb c (ch "|") then NL else c) (u s).

(** The four keys of a record. *)
Abbreviation FR := (u "functional_requirements").
Abbreviation NFR := (u "non_functional_requirements").
Abbreviation TS := (u "test_scenarios").
Abbreviation RISK := (u "risk_areas").

Definition keys (d : dict) : list str := map fst d.

(** A dictionary with the four keys, in one of the two orders in which the
    program writes them. *)
Definition record_keys (d : dict) : Prop :=
  keys d = [FR; NFR; TS; RISK] \/ keys d = [FR; NFR; RISK; TS].

(** A record built from a decoded payload. *)
Definition built (r : dict) : Prop :=
  exists json_str parsed,
    loads json_str = Some (PDict parsed)
    /\ r = _build_structured_result parsed.

(** The error-shaped dictionary of lines 259-262 has the key [error]. *)
Definition is_error (r : dict) : bool := has_key (u "error") r.

(** The [id] of a scenario, be it a [TestScenario] or a dictionary. *)
Definition scenario_id (v : pyval) : pyval :=
  match v with
  | PScenario id _ _ => id
  | PDict d => get (u "id") PNone d
  | _ => PNone
  end.

(** The ids of the scenarios of a record. *)
Definition scenario_ids (r : dict) : list pyval :=
  match lookup TS r with
  | Some (PList scenarios) => map scenario_id scenarios
  | _ => []
  end.


Definition is_scenario (v : pyval) : bool :=
  match v with PScenario _ _ _ => true | _ => false end.


(** The id of the [k]-th synthesized scenario. *)
Definition numbered (k : nat) : pyval := PStr (ts_id k).


(** Collaborators that do not fail, the agent answering [response]. *)
Definition answering (response : str) : collaborators :=
  Collaborators None (Returns (Some response)) (fun _ => None).

(** The same with a store that raises. *)
Definition failing_store (response message : str) : collaborators :=
  Collaborators None (Returns (Some response))
                (fun _ => Some (Exception message)).

(** *** Shapes of texts *)

(** A line break, a carriage return or a tab. *)
Definition layout (c : char) : bool := mem c [NL; CR; TAB].
Definition no_layout (s : str) : bool := forallb (fun c => negb (layout c)) s.

(** The three replacements of lines 619 and 622. *)
Definition escaped (s : str) : str :=
  replace_char TAB [BSLASH; ch "t"]
    (replace_char CR [BSLASH; ch "r"]
       (replace_char NL [BSLASH; ch "n"] s)).

(** Not an object left open: the stripped text does not start with a brace,
    or it ends with one. *)
Definition closed (s : str) : bool :=
  (negb (startswith (strip s) (u "{")) || endswith (strip s) (u "}"))%bool.

(** A text between braces. *)
Definition framed (s : str) : Prop :=
  startswith s (u "{") = true /\ endswith s (u "}") = true.

(** The number of opening and of closing braces of a text. *)
Definition opens (s : str) : Z := Z.of_nat (count_occ N.eq_dec s (ch "{")).
Definition closes (s : str) : Z := Z.of_nat (count_occ N.eq_dec s (ch "}")).

(** Braces that pair up: as many closing as opening ones, and no prefix
    with more closing than opening ones. *)
Definition nested (s : str) : Prop :=
  opens s = closes s
  /\ forall n, (closes (firstn n s) <= opens (firstn n s))%Z.

(** An item as the heading scanners leave it: stripped, and with no
    character below the space. *)
Definition tidy (item : str) : Prop :=
  strip item = item /\ forallb (N.leb 32) item = true.

(** A brace, opening or closing. *)
Definition is_brace (c : char) : bool :=
  (N.eqb c (ch "{") || N.eqb c (ch "}"))%bool.

(** The opening brackets of a text: a bound on the depth to which its
    arrays and objects are nested. *)
Definition openers (s : str) : nat :=
  List.length
    (filter (fun c => (N.eqb c (ch "{") || N.eqb c (ch "["))%bool) s).

(** The separators of the label scanner. *)
Definition separator : cls := cset ",，、;；".

(** *** Records and scenarios *)

(** What the filling step leaves under a required key. *)
Definition filled (old : option pyval) : pyval :=
  match old with
  | Some v => if truthy v then v else default_value
  | None => default_value
  end.

Definition required (key : str) : bool := existsb (str_eqb key) required_keys.

(** The body of the loop of [_fill_missing_requirements]. *)
Definition fill_step (result : dict) (key : str) : dict :=
  match lookup key result with
  | Some v => if truthy v then result else set key default_value result
  | None => set key default_value result
  end.

(** A list with an element. *)
Definition is_full_list (v : pyval) : bool :=
  match v with PList (_ :: _) => true | _ => false end.

Definition is_dict (v : pyval) : bool :=
  match v with PDict _ => true | _ => false end.

(** The scenarios the builder stores for a decoded payload. *)
Definition converted (parsed_result : dict) : list pyval :=
  match lookup TS parsed_result with
  | Some (PList entries) => build_scenarios entries []
  | _ => [default_scenario]
  end.

(** A scenario as the label scanner writes it: a dictionary with the three
    keys, whose description is a stripped text of more than two
    characters. *)
Definition label_scenario (v : pyval) : Prop :=
  exists id description,
    v = scenario_dict id description
    /\ strip description = description /\ 2 < len description.

(** *** Headings *)

(** The test of lines 286 and 297 on a cleaned line. *)
Definition functional_title (line : str) : bool :=
  any_in title_patterns
    (replace_char (ch " ") [] (replace_char (ch "：") (u ":") (lower line))).

(** Whether a line of the message opens one of the four sections. *)
Definition opens_section (raw : str) : bool :=
  let line := clean_line raw in
  (nonempty line
   && (functional_title line || heading non_functional_markers line
       || heading scenario_markers line || heading risk_markers line))%bool.

Definition no_heading (message : str) : bool :=
  forallb (fun raw => negb (opens_section raw)) (split_char NL message).

(** *** The matcher and the decoder *)

(** What a continuation was called with. *)
Definition reached (k : kont) (a : str * caps) (s : str) (strict : bool)
  : Prop :=
  exists pos' s' c',
    k pos' s' c' = Some a
    /\ len s' <= len s
    /\ (strict = true -> len s' < len s).

(** [n] characters were read to arrive at [x]. *)
Definition fits (n : nat) (s : str) (x : pyval * str) : Prop :=
  len (snd x) + n = len s /\ 1 <= n.

(** The texts a pattern matches, read off the pattern; an anchor matches
    the empty text. *)
Fixpoint matches (r : regex) (w : str) : Prop :=
  match r with
  | Eps | Bos | Eos => w = []
  | Cls p => exists x, w = [x] /\ p x = true
  | Lit l => w = l
  | Seq a b => exists w1 w2, w = w1 ++ w2 /\ matches a w1 /\ matches b w2
  | Alt a b => matches a w \/ matches b w
  | Opt a => w = [] \/ matches a w
  | Star _ p => forallb p w = true
  | Grp _ a => matches a w
  end.

(** The groups a match of a pattern records, the last one first. *)
Fixpoint records (r : regex) (c : caps) : Prop :=
  match r with
  | Seq a b => exists ca cb, c = cb ++ ca /\ records a ca /\ records b cb
  | Alt a b => records a c \/ records b c
  | Opt a => c = [] \/ records a c
  | Grp n a => exists w ca, c = (n, w) :: ca /\ matches a w /\ records a ca
  | _ => c = []
  end.

(** Whether every match of the pattern holds the text [l], read off the
    literals of the pattern. *)
Fixpoint requires (l : str) (r : regex) : bool :=
  match r with
  | Lit l' => contains l' l
  | Seq a b => requires l a || requires l b
  | Alt a b => requires l a && requires l b
  | Grp _ a => requires l a
  | _ => false
  end.

(** One step through the facts [matches] and [records] give for a
    sequence, a group, an option or a literal. *)
Ltac break :=
  repeat match goal with
  | H : records (Seq ?a ?b) ?c |- _ =>
      change (exists ca cb, c = cb ++ ca /\ records a ca /\ records b cb) in H;
      destruct H as (? & ? & ? & ? & ?)
  | H : records (Grp ?n ?a) ?c |- _ =>
      change (exists w ca, c = (n, w) :: ca /\ matches a w /\ records a ca) in H;
      destruct H as (? & ? & ? & ? & ?)
  | H : records (Opt ?a) ?c |- _ =>
      change (c = [] \/ records a c) in H; destruct H as [? | ?]
  | H : records (Lit _) ?c |- _ => change (c = []) in H
  | H : records (Star _ _) ?c |- _ => change (c = []) in H
  | H : matches (Seq ?a ?b) ?w |- _ =>
      change (exists w1 w2, w = w1 ++ w2 /\ matches a w1 /\ matches b w2) in H;
      destruct H as (? & ? & ? & ? & ?)
  | H : matches (Lit ?l) ?w |- _ => change (w = l) in H
  end; subst.

(** *** Sample texts *)

Definition functional_only : str := text "功能需求：|- 系统应支持用户登录".

Definition payload_lines : str :=
  text "{|  'functional_requirements': ['用户可以登录'],|  'non_functional_requirements': ['响应时间小于2秒'],|  'test_scenarios': [{'id': 'TS001', 'description': '登录成功', 'test_cases': []}],|  'risk_areas': ['密码泄露']|}".

Definition payload_one_line : str :=
  text "{'functional_requirements': ['用户可以登录'], 'non_functional_requirements': ['响应时间小于2秒'], 'test_scenarios': [{'id': 'TS001', 'description': '登录成功', 'test_cases': []}], 'risk_areas': ['密码泄露']}".

Definition fenced (payload : str) : str :=
  u "```json" ++ [NL] ++ payload ++ [NL] ++ u "```".

Definition payload_value : pyval :=
  PDict [ (FR, PList [PStr (u "用户可以登录")]);
          (NFR, PList [PStr (u "响应时间小于2秒")]);
          (TS, PList [ PDict [ (u "id", PStr (u "TS001"));
                               (u "description", PStr (u "登录成功"));
                               (u "test_cases", PList []) ] ]);
          (RISK, PList [PStr (u "密码泄露")]) ].

Definition label_defaults : dict :=
  [ (FR, PList [PStr (u "需要根据具体需求文档确定功能需求")]);
    (NFR, PList [PStr (u "性能要求"); PStr (u "安全要求");
                 PStr (u "可用性要求")]);
    (TS, PList [scenario_dict (u "TS001") (u "需要根据具体需求确定测试场景")]);
    (RISK, PList [PStr (u "数据安全风险"); PStr (u "系统性能风险");
                  PStr (u "用户体验风险")]) ].

Definition mis_shaped : str :=
  text "{'functional_requirements': '用户登录', 'non_functional_requirements': [], 'test_scenarios': [], 'risk_areas': []}".


Definition risk_label_only : str := text "风险点: 数据丢失,权限绕过".

Definition short_item : str := text "功能需求：|1. 登录".

Definition scenario_section : str := text "测试场景:|- 登录成功|- 登录失败".

Definition two_label_lines : str :=
  text "{x}|测试场景: 登录成功,登录失败|测试场景: 注册成功".



Definition blank_document : str := [ch " "; NL; TAB; ch " "].

Definition one_item_payload : str := text "{'functional_requirements': ['a1']}".

Definition prose : str := text "The system stores the orders.|It is fast.".

Definition plain_text : str := u "see the notes below".

Definition object_in_prose : str := text "see {'risk_areas': []}; done".

(** * Properties *)

(** ** The fuel of the decoder

    A match of a pattern that cannot match the empty string shortens the
    text, so every value the decoder reads takes at least one character,
    and the fuel [loads] starts with is never what makes it fail. *)

Lemma reached_weaken k a s s0 strict strict0 :
  reached k a s strict ->
  len s <= len s0 ->
  (strict0 = true -> strict = true \/ len s < len s0) ->
  reached k a s0 strict0.
Proof.
  intros (pos' & s' & c' & Hk & Hle & Hlt) H1 H2.
  exists pos', s', c'. split; [exact Hk|]. split; [lia|].
  intros E. destruct (H2 E) as [E' | E']; [specialize (Hlt E')|]; lia.
Qed.

Lemma star_greedy_reaches p k : forall s pos c a,
  star_greedy p k pos s c = Some a -> reached k a s false.
Proof.
  induction s as [| x s IH]; intros pos c a H; simpl in H.
  - exists pos, [], c. split; [exact H|]. split; [lia | discriminate].
  - destruct (p x).
    + destruct (star_greedy p k (S pos) s c) eqn:E.
      * injection H as <-. apply IH in E.
        eapply reached_weaken; [exact E | simpl; lia | discriminate].
      * exists pos, (x :: s), c. split; [exact H|]. split; [lia | discriminate].
    + exists pos, (x :: s), c. split; [exact H|]. split; [lia | discriminate].
Qed.

Lemma star_lazy_reaches p k : forall s pos c a,
  star_lazy p k pos s c = Some a -> reached k a s false.
Proof.
  induction s as [| x s IH]; intros pos c a H; simpl in H.
  - destruct (k pos [] c) eqn:E; [|discriminate].
    injection H as <-. exists pos, [], c.
    split; [exact E|]. split; [lia | discriminate].
  - destruct (k pos (x :: s) c) eqn:E.
    + injection H as <-. exists pos, (x :: s), c.
      split; [exact E|]. split; [lia | discriminate].
    + destruct (p x); [|discriminate]. apply IH in H.
      eapply reached_weaken; [exact H | simpl; lia | discriminate].
Qed.

Lemma startswith_len : forall p s, startswith s p = true -> len p <= len s.
Proof.
  induction p as [| c p IH]; intros s H; simpl in *; [lia|].
  destruct s as [| d s]; [discriminate|].
  apply andb_prop in H. destruct H as [_ H]. apply IH in H. simpl. lia.
Qed.

Lemma rx_reaches r : forall k pos s c a,
  rx r k pos s c = Some a -> reached k a s (negb (nullable r)).
Proof.
  induction r as [| | | p | l | r1 IH1 r2 IH2 | r1 IH1 r2 IH2 | r IH
                  | g p | n r IH];
    intros k pos s c a H; simpl in H.
  - exists pos, s, c. split; [exact H|]. split; [lia | discriminate].
  - destruct (Nat.eqb pos 0); [|discriminate].
    exists pos, s, c. split; [exact H|]. split; [lia | discriminate].
  - assert (E : k pos s c = Some a).
    { destruct s as [| x [| y s]]; try discriminate; [exact H|].
      destruct (N.eqb x NL); [exact H | discriminate]. }
    exists pos, s, c. split; [exact E|]. split; [lia | discriminate].
  - destruct s as [| x s]; [discriminate|].
    destruct (p x); [|discriminate].
    exists (S pos), s, c. split; [exact H|]. simpl. split; [lia|]. intros _. lia.
  - destruct (startswith s l) eqn:E; [|discriminate].
    apply startswith_len in E.
    exists (pos + len l), (skipn (len l) s), c. split; [exact H|].
    unfold len in *. rewrite length_skipn. split; [lia|].
    destruct l; simpl; [discriminate|]. intros _. simpl in E. lia.
  - apply IH1 in H. destruct H as (pos1 & s1 & c1 & H & Hle & Hlt).
    apply IH2 in H. destruct H as (pos2 & s2 & c2 & H & Hle2 & Hlt2).
    exists pos2, s2, c2. split; [exact H|]. split; [lia|].
    simpl. rewrite negb_andb. intros E. apply orb_prop in E.
    destruct E as [E | E]; [specialize (Hlt E) | specialize (Hlt2 E)]; lia.
  - destruct (rx r1 k pos s c) eqn:E.
    + injection H as <-. apply IH1 in E.
      eapply reached_weaken; [exact E | lia|].
      simpl. rewrite negb_orb. intros E'. apply andb_prop in E'. left. tauto.
    + apply IH2 in H.
      eapply reached_weaken; [exact H | lia|].
      simpl. rewrite negb_orb. intros E'. apply andb_prop in E'. left. tauto.
  - destruct (rx r k pos s c) eqn:E.
    + injection H as <-. apply IH in E.
      eapply reached_weaken; [exact E | lia | discriminate].
    + exists pos, s, c. split; [exact H|]. split; [lia | discriminate].
  - destruct g.
    + apply star_greedy_reaches in H. exact H.
    + apply star_lazy_reaches in H. exact H.
  - apply IH in H. destruct H as (pos1 & s1 & c1 & H & Hle & Hlt).
    exists pos1, s1, ((n, firstn (pos1 - pos) s) :: c1).
    split; [exact H|]. split; [lia | exact Hlt].
Qed.

Lemma rmatch_consumes r s m :
  nullable r = false -> rmatch r s = Some m -> len (m_rest m) < len s.
Proof.
  intros Hn H. unfold rmatch, match_at in H.
  destruct (rx r accept 0 s []) as [[rest c]|] eqn:E; [|discriminate].
  injection H as <-. simpl.
  apply rx_reaches in E. destruct E as (pos' & s' & c' & Ha & _ & Hlt).
  unfold accept in Ha. injection Ha as -> _. apply Hlt. rewrite Hn. reflexivity.
Qed.

Lemma skip_ws_len s : len (skip_ws s) <= len s.
Proof.
  induction s as [| c s IH]; simpl; [lia|].
  destruct (is_ws c); simpl; unfold len in *; lia.
Qed.

Lemma jstring_consumes n : forall s acc k r,
  len s <= n -> jstring s acc = Some (k, r) -> len r < len s.
Proof.
  induction n as [| n IH]; intros s acc k r Hn H.
  - destruct s; [discriminate | simpl in Hn; lia].
  - destruct s as [| c s1]; [discriminate|].
    cbn [jstring] in H. unfold len in *. cbn [List.length] in *.
    repeat match type of H with
           | (if ?b then _ else _) = _ => destruct b
           | match ?x with _ => _ end = _ => destruct x eqn:?
           end;
      try discriminate;
      try (injection H as _ <-; cbn [List.length]; lia);
      try (apply IH in H; cbn [List.length] in *; lia).
Qed.

Lemma scalar_consumes s v r : scalar s = Some (v, r) -> len r < len s.
Proof.
  unfold scalar. intros H.
  assert (K : forall p, startswith s p = true -> p <> [] ->
                        len (skipn (len p) s) < len s).
  { intros p Hp Hne. apply startswith_len in Hp. unfold len in *.
    rewrite length_skipn. destruct p; [congruence|]. simpl in *. lia. }
  repeat match type of H with
         | (if ?b then _ else _) = _ => destruct b eqn:?
         end;
    try (injection H as _ <-;
         match goal with
         | E : startswith s ?p = true |- _ =>
             apply (K p E); vm_compute; discriminate
         end).
  destruct (rmatch NUMBER_RE s) as [m|] eqn:E.
  - destruct (too_long (m_text m)); [discriminate|].
    injection H as _ <-. eapply (@rmatch_consumes NUMBER_RE); [|exact E].
    vm_compute. reflexivity.
  - repeat match type of H with
           | (if ?b then _ else _) = _ => destruct b eqn:?
           end;
      try discriminate;
      injection H as _ <-;
      match goal with
      | E : startswith s ?p = true |- _ =>
          apply (K p E); vm_compute; discriminate
      end.
Qed.

Lemma fuel_enough : forall f,
  (forall s x, value f s = Some x ->
     exists n, fits n s x /\ forall f', n <= f' -> value f' s = Some x)
  /\ (forall s acc x, members f s acc = Some x ->
     exists n, fits n s x /\ forall f', n <= f' -> members f' s acc = Some x)
  /\ (forall s acc x, elements f s acc = Some x ->
     exists n, fits n s x /\ forall f', n <= f' -> elements f' s acc = Some x).
Proof.
  induction f as [| f (IHv & IHm & IHe)].
  { repeat split; intros; discriminate. }
  split; [|split].
  - intros s x H. destruct s as [| c s1]; [discriminate|].
    cbn [value] in H.
    destruct (N.eqb c DQUOTE) eqn:Eq.
    { destruct (jstring s1 []) as [[t r]|] eqn:Ej; [|discriminate].
      injection H as <-.
      pose proof (@jstring_consumes (len s1) s1 [] t r (le_n _) Ej) as Hl.
      exists (len (c :: s1) - len r). unfold fits, len in *.
      cbn [snd List.length] in *. split; [lia|].
      intros [| f'] Hf; [lia|]. cbn [value]. rewrite Eq, Ej. reflexivity. }
    destruct (N.eqb c (ch "{")) eqn:Eb.
    { pose proof (skip_ws_len s1) as Hl.
      destruct (skip_ws s1) as [| x0 r0] eqn:Es; [discriminate|].
      destruct (N.eqb x0 (ch "}")) eqn:Ec.
      - injection H as <-. exists (len (c :: s1) - len r0).
        unfold fits, len in *. cbn [snd List.length] in *. split; [lia|].
        intros [| f'] Hf; [lia|]. cbn [value]. rewrite Eq, Eb, Es, Ec.
        reflexivity.
      - apply IHm in H. destruct H as (n & (Hn1 & Hn2) & Hn).
        exists (len (c :: s1) - len (snd x)).
        unfold fits, len in *. cbn [List.length] in *. split; [lia|].
        intros [| f'] Hf; [lia|]. cbn [value]. rewrite Eq, Eb, Es, Ec.
        apply Hn. lia. }
    destruct (N.eqb c (ch "[")) eqn:Ea.
    { pose proof (skip_ws_len s1) as Hl.
      destruct (skip_ws s1) as [| x0 r0] eqn:Es; [discriminate|].
      destruct (N.eqb x0 (ch "]")) eqn:Ec.
      - injection H as <-. exists (len (c :: s1) - len r0).
        unfold fits, len in *. cbn [snd List.length] in *. split; [lia|].
        intros [| f'] Hf; [lia|]. cbn [value]. rewrite Eq, Eb, Ea, Es, Ec.
        reflexivity.
      - apply IHe in H. destruct H as (n & (Hn1 & Hn2) & Hn).
        exists (len (c :: s1) - len (snd x)).
        unfold fits, len in *. cbn [List.length] in *. split; [lia|].
        intros [| f'] Hf; [lia|]. cbn [value]. rewrite Eq, Eb, Ea, Es, Ec.
        apply Hn. lia. }
    destruct x as [v r]. pose proof (@scalar_consumes _ _ _ H) as Hl.
    exists (len (c :: s1) - len r). unfold fits, len in *.
    cbn [snd List.length] in *. split; [lia|].
    intros [| f'] Hf; [lia|]. cbn [value]. rewrite Eq, Eb, Ea. exact H.
  - intros s acc x H. destruct s as [| c s1]; [discriminate|].
    cbn [members] in H.
    destruct (N.eqb c DQUOTE) eqn:Eq; [|discriminate].
    destruct (jstring s1 []) as [[k s2]|] eqn:Ej; [|discriminate].
    pose proof (@jstring_consumes (len s1) s1 [] k s2 (le_n _) Ej) as Hl1.
    pose proof (skip_ws_len s2) as Hl2.
    destruct (skip_ws s2) as [| colon s3] eqn:Es2; [discriminate|].
    destruct (N.eqb colon (ch ":")) eqn:Ec; [|discriminate].
    pose proof (skip_ws_len s3) as Hl3.
    destruct (value f (skip_ws s3)) as [[v s4]|] eqn:Ev; [|discriminate].
    apply IHv in Ev. destruct Ev as (nv & (Hv1 & Hv2) & Hv).
    pose proof (skip_ws_len s4) as Hl4.
    destruct (skip_ws s4) as [| x0 s5] eqn:Es4; [discriminate|].
    destruct (N.eqb x0 (ch "}")) eqn:Ee.
    + injection H as <-. exists (len (c :: s1) - len s5).
      unfold fits, len in *. cbn [snd List.length] in *. split; [lia|].
      intros [| f'] Hf; [lia|]. cbn [members].
      rewrite Eq, Ej, Es2, Ec, (Hv f') by lia. rewrite Es4, Ee. reflexivity.
    + destruct (N.eqb x0 (ch ",")) eqn:Ek; [|discriminate].
      pose proof (skip_ws_len s5) as Hl5.
      apply IHm in H. destruct H as (nm & (Hm1 & Hm2) & Hm).
      exists (len (c :: s1) - len (snd x)).
      unfold fits, len in *. cbn [snd List.length] in *. split; [lia|].
      intros [| f'] Hf; [lia|]. cbn [members].
      rewrite Eq, Ej, Es2, Ec, (Hv f') by lia. rewrite Es4, Ee, Ek.
      apply Hm. lia.
  - intros s acc x H. cbn [elements] in H.
    destruct (value f s) as [[v s1]|] eqn:Ev; [|discriminate].
    apply IHv in Ev. destruct Ev as (nv & (Hv1 & Hv2) & Hv).
    pose proof (skip_ws_len s1) as Hl1.
    destruct (skip_ws s1) as [| x0 s2] eqn:Es1; [discriminate|].
    destruct (N.eqb x0 (ch "]")) eqn:Ee.
    + injection H as <-. exists (len s - len s2).
      unfold fits, len in *. cbn [snd List.length] in *. split; [lia|].
      intros [| f'] Hf; [lia|]. cbn [elements].
      rewrite (Hv f') by lia. rewrite Es1, Ee. reflexivity.
    + destruct (N.eqb x0 (ch ",")) eqn:Ek; [|discriminate].
      pose proof (skip_ws_len s2) as Hl2.
      apply IHe in H. destruct H as (ne & (He1 & He2) & He).
      exists (len s - len (snd x)).
      unfold fits, len in *. cbn [snd List.length] in *. split; [lia|].
      intros [| f'] Hf; [lia|]. cbn [elements].
      rewrite (Hv f') by lia. rewrite Es1, Ee, Ek. apply He. lia.
Qed.

(** The fuel [loads] gives is enough: a text that some amount of fuel
    decodes is decoded by [loads]. *)
Lemma loads_fuel_enough s fuel v r :
  value fuel (skip_ws s) = Some (v, r) -> skip_ws r = [] -> loads s = Some v.
Proof.
  intros H Hr. unfold loads.
  destruct (fuel_enough fuel) as (Hv & _ & _).
  apply Hv in H. destruct H as (n & (Hn1 & Hn2) & Hn).
  pose proof (skip_ws_len s) as Hl. rewrite Hn.
  - rewrite Hr. reflexivity.
  - unfold len in *. cbn [snd] in *. lia.
Qed.

(** ** Dictionaries *)

Lemma has_key_keys k d :
  has_key k d = existsb (fun k' => str_eqb k' k) (keys d).
Proof.
  unfold has_key, keys. induction d as [| [k' v] d IH]; simpl; [reflexivity|].
  rewrite IH. reflexivity.
Qed.

Lemma keys_set_present k v d :
  has_key k d = true -> keys (set k v d) = keys d.
Proof.
  induction d as [| [k' v'] d IH]; simpl; [discriminate|].
  destruct (str_eqb k' k) eqn:E; simpl; intros H.
  - reflexivity.
  - f_equal. apply IH. exact H.
Qed.

Lemma has_key_same_keys k d d' :
  keys d' = keys d -> has_key k d' = has_key k d.
Proof. intros E. rewrite !has_key_keys, E. reflexivity. Qed.




(** ** The keys of a record *)

Lemma keys_fill_step ks : forall d,
  forallb (fun k => has_key k d) ks = true ->
  keys (fold_left (fun result key =>
               match lookup key result with
               | Some v => if truthy v then result
                           else set key default_value result
               | None => set key default_value result
               end) ks d) = keys d.
Proof.
  induction ks as [| k ks IH]; intros d H; simpl in *; [reflexivity|].
  apply andb_prop in H. destruct H as [Hk Hks].
  set (d' := match lookup k d with
             | Some v => if truthy v then d else set k default_value d
             | None => set k default_value d
             end).
  assert (E : keys d' = keys d).
  { unfold d'. destruct (lookup k d) as [v|].
    - destruct (truthy v); [reflexivity | apply keys_set_present; exact Hk].
    - apply keys_set_present; exact Hk. }
  rewrite IH.
  - exact E.
  - rewrite forallb_forall in Hks |- *. intros k0 Hin.
    rewrite (@has_key_same_keys k0 d d' E). apply Hks. exact Hin.
Qed.

Lemma keys_fill d :
  forallb (fun k => has_key k d) required_keys = true ->
  keys (_fill_missing_requirements d) = keys d.
Proof. apply keys_fill_step. Qed.

Lemma record_keys_all d :
  record_keys d -> forallb (fun k => has_key k d) required_keys = true.
Proof.
  intros [E | E]; unfold required_keys; simpl forallb;
    rewrite !has_key_keys, E; vm_compute; reflexivity.
Qed.

Lemma record_keys_no_error d : record_keys d -> is_error d = false.
Proof.
  intros [E | E]; unfold is_error; rewrite has_key_keys, E;
    vm_compute; reflexivity.
Qed.

Lemma build_keys parsed :
  keys (_build_structured_result parsed) = [FR; NFR; RISK; TS].
Proof.
  unfold _build_structured_result.
  destruct (lookup (u "test_scenarios") parsed) as [[]|];
    vm_compute; reflexivity.
Qed.

Lemma label_keys t : keys (_extract_fallback_from_text t) = [FR; NFR; TS; RISK].
Proof.
  unfold _extract_fallback_from_text, keys. cbv [map fst]. reflexivity.
Qed.

Lemma sections_keys t : keys (from_sections t) = [FR; NFR; TS; RISK].
Proof. unfold from_sections, keys. cbv [map fst]. reflexivity. Qed.

Lemma built_keys r : built r -> keys r = [FR; NFR; RISK; TS].
Proof. intros (j & parsed & _ & ->). apply build_keys. Qed.

(** ** The paths through the pipeline *)

Lemma try_match_built t m r : try_match t m = Some r -> built r.
Proof.
  unfold try_match.
  destruct (find t m) as [start_pos|]; [|discriminate].
  match goal with
  | |- context [loads ?j] => remember j as fixed_json eqn:Ej
  end.
  clear Ej.
  destruct (_is_valid_json_format fixed_json); [|discriminate].
  destruct (loads fixed_json) as [[]|] eqn:El; try discriminate.
  intros H. injection H as <-. exists fixed_json, kvs.
  split; [exact El | reflexivity].
Qed.

Lemma first_result_built t ms r : first_result t ms = Some r -> built r.
Proof.
  induction ms as [| m ms IH]; simpl; [discriminate|].
  destruct (try_match t m) as [r'|] eqn:E.
  - intros H. injection H as <-. eapply try_match_built. exact E.
  - exact IH.
Qed.

Lemma fallback_cases t :
  built (_extract_json_fallback t)
  \/ _extract_json_fallback t = _extract_fallback_from_text t.
Proof.
  unfold _extract_json_fallback.
  destruct (first_result t _) as [r|] eqn:E.
  - left. eapply first_result_built. exact E.
  - right. reflexivity.
Qed.

Lemma from_payload_cases t p :
  built (from_payload t p)
  \/ from_payload t p = _extract_fallback_from_text t.
Proof.
  unfold from_payload.
  repeat match goal with
         | |- context [if ?b then _ else _] => destruct b
         | |- context [match loads ?j with _ => _ end] =>
             let El := fresh "El" in
             destruct (loads j) as [[]|] eqn:El
         end;
    try apply fallback_cases;
    left; eexists _, _; (split; [eassumption | reflexivity]).
Qed.

Lemma from_payload_keys t p : record_keys (from_payload t p).
Proof.
  destruct (from_payload_cases t p) as [H | ->].
  - right. apply built_keys. exact H.
  - left. apply label_keys.
Qed.

Lemma finalize_keys d : record_keys d -> keys (finalize d) = keys d.
Proof.
  intros H. unfold finalize.
  destruct (_validate_analysis_result d); simpl; [reflexivity|].
  apply keys_fill. apply record_keys_all. exact H.
Qed.

Lemma finalize_record_keys d : record_keys d -> record_keys (finalize d).
Proof.
  intros H. unfold record_keys. rewrite (finalize_keys H). exact H.
Qed.

(** The record before finalisation: the payload's when one was located, the
    heading scanners' otherwise. *)
Lemma recover_unfold t :
  recover t = finalize (match locate locator_patterns t with
                        | Some p => from_payload t p
                        | None => from_sections t
                        end).
Proof.
  unfold recover. destruct (locate locator_patterns t) as [p|]; [|reflexivity].
  destruct (from_payload t p) eqn:E; [|reflexivity].
  pose proof (from_payload_keys t p) as H. rewrite E in H.
  destruct H as [H | H]; discriminate H.
Qed.

Lemma recover_keys t : record_keys (recover t).
Proof.
  rewrite recover_unfold. apply finalize_record_keys.
  destruct (locate locator_patterns t) as [p|].
  - apply from_payload_keys.
  - left. apply sections_keys.
Qed.

Lemma validate_four a b c d :
  _validate_analysis_result [(FR, a); (NFR, b); (TS, c); (RISK, d)]
  = (is_list a && (is_list b && (is_list c && (is_list d && true))))%bool.
Proof. vm_compute. reflexivity. Qed.

Lemma is_list_or_default a b : is_list (or_default a b) = true.
Proof. destruct a; reflexivity. Qed.


(** ** Scenario ids *)














(** The label scanner numbers the items of each matching line from 1 again,
    so two label lines give the id TS001 twice. *)
Example label_ids_restart :
  scenario_ids (recover two_label_lines)
  = [PStr (u "TS001"); PStr (u "TS002"); PStr (u "TS001")].
Proof. vm_compute. reflexivity. Qed.

(** ** The claims *)

(** C1 (fails on the code): the validator that gates the fill step tests
    that every field is a list, not that it is non-empty, so a record with
    empty lists is returned as it is.  For an answer that holds only a
    functional section the heading scanners find no non-functional
    requirement and no risk, and [analyze] returns both fields empty. *)
Theorem analyze_returns_empty_lists :
  let r := [ (FR, PList [PStr (u "系统应支持用户登录")]);
             (NFR, PList []);
             (TS, PList [default_scenario]);
             (RISK, PList []) ] in
  _validate_analysis_result r = true
  /\ analyze (answering functional_only) (Self None) (u "需求文档")
     = (Returns r, Self (Some r)).
Proof. vm_compute. split; reflexivity. Qed.

(** C2 (fails on the code): [analyze] raises on a blank document although
    no collaborator failed and none was called.  The name [TestScenario] is
    local to [analyze] through the import of line 161; the branch for an
    empty document reads it at line 101, and the [UnboundLocalError] is
    raised again by the handler of line 265.  The sibling
    [_get_default_result], which builds the same record, returns it. *)
Theorem analyze_raises_on_blank_document (io : collaborators) (self : agent)
  (doc_content : str) :
  strip doc_content = [] ->
  fst (analyze io self doc_content)
  = Raises (UnboundLocalError (u "TestScenario")).
Proof.
  intros H. unfold analyze. rewrite H. cbn [nonempty].
  rewrite andb_false_r. reflexivity.
Qed.

Lemma analyze_raises_witness :
  fst (analyze (answering (u "hello")) (Self None) blank_document)
  = Raises (UnboundLocalError (u "TestScenario")).
Proof.
  apply analyze_raises_on_blank_document. vm_compute. reflexivity.
Defined.

(** Besides, and by design: when the store raises while the result is
    saved, [analyze] returns the error-shaped dictionary of lines 259-262;
    and with collaborators that do not fail, a payload whose functional
    requirements are a string comes back with that string in the place of a
    list. *)
Lemma analyze_returns_error_dict :
  fst (analyze (failing_store (u "hello") (u "disk full")) (Self None)
               (u "doc"))
  = Returns [ (u "error", PStr (u "结果生成失败"));
              (u "details", PStr (u "disk full")) ]
  /\ exists r,
      fst (analyze (answering mis_shaped) (Self None) (u "doc")) = Returns r
      /\ lookup FR r = Some (PStr (u "用户登录")).
Proof.
  split; [vm_compute; reflexivity|].
  eexists. split; vm_compute; reflexivity.
Qed.

(** C3 (fails on the code): the fill step puts the one default, a list
    holding the string 需要补充具体内容, into every field it fills.  A payload
    whose functional requirements are a string (so validation fails) and
    whose scenario list is empty comes back with a plain string as its only
    scenario. *)
Theorem fill_puts_string_in_test_scenarios :
  lookup TS (recover mis_shaped) = Some (PList [PStr (u "需要补充具体内容")])
  /\ lookup TS (_fill_missing_requirements [(FR, PList [PStr (u "a")])])
     = Some (PList [PStr (u "需要补充具体内容")])
  /\ forallb is_scenario [PStr (u "需要补充具体内容")] = false.
Proof. vm_compute. repeat split; reflexivity. Qed.




(** C5 (fails on the code): the conservative pass puts a backslash and [n]
    in the place of every line break, also of those between the tokens.  A
    payload laid out on several lines decodes before the pass and no longer
    after it (with any amount of fuel: a backslash follows the opening
    brace), though the structure validator still accepts it, so the
    aggressive pass is not tried. *)
Theorem repair_breaks_valid_payload :
  loads payload_lines = Some payload_value
  /\ _fix_json_format payload_lines
     = replace_char NL [BSLASH; ch "n"] payload_lines
  /\ _is_valid_json_format (_fix_json_format payload_lines) = true
  /\ loads (_fix_json_format payload_lines) = None
  /\ (forall fuel,
        value fuel (skip_ws (_fix_json_format payload_lines)) = None).
Proof.
  split; [vm_compute; reflexivity|].
  split; [vm_compute; reflexivity|].
  split; [vm_compute; reflexivity|].
  split; [vm_compute; reflexivity|].
  intros [| [| fuel]]; vm_compute; reflexivity.
Qed.

(** C6 (fails on the code): a well-formed payload with the four fields,
    laid out on several lines, is lost in the conservative pass and every
    field of the record is a placeholder, with or without a fence around
    the payload; the same payload on one line is mapped field by field. *)
Theorem payload_on_lines_is_replaced_by_placeholders :
  loads payload_lines = Some payload_value
  /\ recover payload_lines = label_defaults
  /\ recover (fenced payload_lines) = label_defaults
  /\ recover payload_one_line
     = [ (FR, PList [PStr (u "用户可以登录")]);
         (NFR, PList [PStr (u "响应时间小于2秒")]);
         (RISK, PList [PStr (u "密码泄露")]);
         (TS, PList [TestScenario (PStr (u "TS001")) (PStr (u "登录成功"))
                                  (PList [])]) ].
Proof. vm_compute. repeat split; reflexivity. Qed.



(** C8 (fails on the code): a line of the functional section that fails
    the length-and-marker test falls through to two further appends, the
    last of them unconditional.  The item 登录, two characters long and
    without a marker word, is kept; and every line handled inside the
    section adds an entry. *)
Theorem rejected_line_is_appended :
  _extract_functional_reqs short_item = [u "登录"]
  /\ (3 <? len (u "登录")) = false
  /\ existsb (contains (u "登录")) business_verbs = false
  /\ (forall line functional_reqs,
        List.length (functional_entry line functional_reqs)
        = S (List.length functional_reqs)).
Proof.
  split; [vm_compute; reflexivity|].
  split; [vm_compute; reflexivity|].
  split; [vm_compute; reflexivity|].
  intros line acc. unfold functional_entry.
  repeat match goal with
         | |- context [if ?b then _ else _] => destruct b
         end; rewrite length_app; simpl; lia.
Qed.

(** C9, counterexample: a value that is no list is copied as it is, and a
    scenario field that is no list is replaced by the default scenario, not
    by an empty sequence. *)
Lemma non_list_value_is_copied :
  lookup FR (_build_structured_result [(FR, PStr (u "用户登录"))])
  = Some (PStr (u "用户登录"))
  /\ lookup TS (_build_structured_result [(TS, PStr (u "登录成功"))])
     = Some (PList [default_scenario]).
Proof. vm_compute. split; reflexivity. Qed.

(** C9, amended: for the three string fields the builder stores
    [parsed_result.get(key, [])], the payload's value whatever its shape and
    the empty list only when the key is absent; for the scenarios it stores
    the converted entries when the value is a list and the default scenario
    otherwise. *)
Theorem builder_copies_values (parsed_result : dict) :
  lookup FR (_build_structured_result parsed_result)
  = Some (get FR (PList []) parsed_result)
  /\ lookup NFR (_build_structured_result parsed_result)
     = Some (get NFR (PList []) parsed_result)
  /\ lookup RISK (_build_structured_result parsed_result)
     = Some (get RISK (PList []) parsed_result)
  /\ lookup TS (_build_structured_result parsed_result)
     = Some (match lookup TS parsed_result with
             | Some (PList entries) => PList (build_scenarios entries [])
             | _ => PList [default_scenario]
             end).
Proof.
  unfold _build_structured_result.
  set (v := match lookup TS parsed_result with
            | Some (PList entries) => PList (build_scenarios entries [])
            | _ => PList [default_scenario]
            end).
  assert (E : match lookup TS parsed_result with
              | Some (PList entries) =>
                  set TS (PList (build_scenarios entries []))
                    [ (FR, get FR (PList []) parsed_result);
                      (NFR, get NFR (PList []) parsed_result);
                      (RISK, get RISK (PList []) parsed_result) ]
              | _ =>
                  set TS (PList [default_scenario])
                    [ (FR, get FR (PList []) parsed_result);
                      (NFR, get NFR (PList []) parsed_result);
                      (RISK, get RISK (PList []) parsed_result) ]
              end
              = set TS v
                  [ (FR, get FR (PList []) parsed_result);
                    (NFR, get NFR (PList []) parsed_result);
                    (RISK, get RISK (PList []) parsed_result) ]).
  { unfold v. destruct (lookup TS parsed_result) as [[]|]; reflexivity. }
  rewrite E. clear E.
  generalize (get FR (PList []) parsed_result)
             (get NFR (PList []) parsed_result)
             (get RISK (PList []) parsed_result) v.
  intros a b c d. vm_compute. repeat split; reflexivity.
Qed.

(** C10 (fails on the code): the path for an empty document stores
    nothing.  The claim counts it among the paths that return a record and
    set [last_analysis] to it; in the code that branch raises
    [UnboundLocalError] at line 101, before the assignment of line 109, so
    no record is returned and the slot keeps its former value. *)
Theorem blank_document_stores_nothing (io : collaborators) (self : agent)
  (doc_content : str) :
  strip doc_content = [] ->
  snd (analyze io self doc_content) = self
  /\ forall r, fst (analyze io self doc_content) <> Returns r.
Proof.
  intros H. unfold analyze. rewrite H. cbn [nonempty].
  rewrite andb_false_r. cbn [negb fst snd]. split; [reflexivity|].
  intros r. discriminate.
Qed.

Lemma blank_document_stores_witness :
  snd (analyze (answering (u "hello")) (Self (Some label_defaults))
               blank_document)
  = Self (Some label_defaults)
  /\ forall r,
      fst (analyze (answering (u "hello")) (Self (Some label_defaults))
                   blank_document)
      <> Returns r.
Proof.
  apply blank_document_stores_nothing. vm_compute. reflexivity.
Defined.

(** * Further properties

    Properties of the same functions beyond the specification's claims.
    They rest on three groups of lemmas: on strings, on the matcher, and on
    dictionaries. *)

(** ** Strings *)

Lemma Forall_forallb (p : char -> bool) s :
  Forall (fun c => p c = true) s <-> forallb p s = true.
Proof. rewrite forallb_forall, Forall_forall. reflexivity. Qed.

Lemma Forall_snoc (A : Type) (P : A -> Prop) l x :
  Forall P l -> P x -> Forall P (l ++ [x]).
Proof.
  intros Hl Hx. apply Forall_app. split; [exact Hl | repeat constructor; exact Hx].
Qed.

Lemma forallb_eq_on (A : Type) (f g : A -> bool) l :
  (forall x, In x l -> f x = g x) -> forallb f l = forallb g l.
Proof.
  induction l as [| x l IH]; intros H; cbn [forallb]; [reflexivity|].
  rewrite (H x (or_introl eq_refl)), IH; [reflexivity|].
  intros y Hy. apply H. right. exact Hy.
Qed.

Lemma forallb_weaken (A : Type) (f g : A -> bool) l :
  (forall x, f x = true -> g x = true) ->
  forallb f l = true -> forallb g l = true.
Proof.
  intros I H. rewrite forallb_forall in *. intros x Hx. apply I, H, Hx.
Qed.

Lemma flat_map_nil (A B : Type) (l : list A) :
  flat_map (fun _ => @nil B) l = [].
Proof. induction l; simpl; auto. Qed.

Lemma flat_map_single (s : str) : flat_map (fun x => [x]) s = s.
Proof.
  induction s as [| x s IH]; simpl; [reflexivity | rewrite IH; reflexivity].
Qed.

Lemma mem_In x s : mem x s = true <-> In x s.
Proof.
  unfold mem. rewrite existsb_exists. split.
  - intros (y & Hy & E). apply N.eqb_eq in E. subst. exact Hy.
  - intros H. exists x. split; [exact H | apply N.eqb_refl].
Qed.

Lemma firstn_Forall (P : char -> Prop) n : forall s,
  Forall P s -> Forall P (firstn n s).
Proof.
  induction n as [| n IH]; intros s H; simpl; [constructor|].
  destruct H as [| x s Hx Hs]; constructor; [exact Hx | apply IH; exact Hs].
Qed.

Lemma skipn_Forall (P : char -> Prop) n s : Forall P s -> Forall P (skipn n s).
Proof.
  revert s. induction n as [| n IH]; intros s H; simpl; [exact H|].
  destruct H; [constructor | apply IH; assumption].
Qed.

Lemma firstn_add (n m : nat) : forall s : str,
  firstn (n + m) s = firstn n s ++ firstn m (skipn n s).
Proof.
  induction n as [| n IH]; intros s; [reflexivity|].
  destruct s as [| x s]; cbn [Nat.add firstn skipn app].
  - rewrite firstn_nil. reflexivity.
  - rewrite IH. reflexivity.
Qed.

Lemma skipn_add (n m : nat) : forall s : str,
  skipn (n + m) s = skipn m (skipn n s).
Proof.
  induction n as [| n IH]; intros s; [reflexivity|].
  destruct s as [| x s]; cbn [Nat.add skipn].
  - rewrite skipn_nil. reflexivity.
  - apply IH.
Qed.

Lemma len_skipn n (s : str) : len (skipn n s) = len s - n.
Proof. unfold len. apply length_skipn. Qed.

Lemma mem_firstn_cons c x k (s : str) :
  mem c (firstn (S k) (x :: s)) = false ->
  N.eqb c x = false /\ mem c (firstn k s) = false.
Proof.
  cbn [firstn]. unfold mem. cbn [existsb]. intros H.
  apply orb_false_elim in H. exact H.
Qed.

Lemma lstrip_Forall (P : char -> Prop) s : Forall P s -> Forall P (lstrip s).
Proof.
  induction 1 as [| c s Hc Hs IH]; simpl; [constructor|].
  destruct (isspace c); [exact IH | constructor; assumption].
Qed.

Lemma strip_Forall (P : char -> Prop) s : Forall P s -> Forall P (strip s).
Proof.
  intros H. unfold strip, rstrip.
  apply Forall_rev, lstrip_Forall, Forall_rev, lstrip_Forall, H.
Qed.

Lemma strip_forallb (p : char -> bool) s :
  forallb p s = true -> forallb p (strip s) = true.
Proof.
  intros H. apply Forall_forallb. apply strip_Forall. apply Forall_forallb.
  exact H.
Qed.

Lemma strip_mem c s : mem c s = false -> mem c (strip s) = false.
Proof.
  intros H. destruct (mem c (strip s)) eqn:E; [|reflexivity].
  apply mem_In in E.
  assert (F : Forall (fun x => x <> c) (strip s)).
  { apply strip_Forall. apply Forall_forall. intros x Hx ->.
    apply mem_In in Hx. rewrite Hx in H. discriminate. }
  rewrite Forall_forall in F. exfalso. exact (F c E eq_refl).
Qed.

Lemma lstrip_idem s : lstrip (lstrip s) = lstrip s.
Proof.
  induction s as [| c s IH]; simpl; [reflexivity|].
  destruct (isspace c) eqn:E; [exact IH | simpl; rewrite E; reflexivity].
Qed.

Lemma lstrip_keeps c a b :
  isspace c = false -> lstrip (a ++ c :: b) = lstrip a ++ c :: b.
Proof.
  intros Hc. induction a as [| x a IH]; simpl.
  - rewrite Hc. reflexivity.
  - destruct (isspace x); [exact IH | reflexivity].
Qed.

Lemma lstrip_head s :
  match lstrip s with c :: _ => isspace c = false | [] => True end.
Proof.
  induction s as [| c s IH]; simpl; [exact I|].
  destruct (isspace c) eqn:E; [exact IH | exact E].
Qed.

Lemma lstrip_fixed s :
  match s with c :: _ => isspace c = false | [] => True end -> lstrip s = s.
Proof. destruct s as [| c s]; simpl; [reflexivity|]. intros ->. reflexivity. Qed.

Lemma rstrip_idem s : rstrip (rstrip s) = rstrip s.
Proof. unfold rstrip. rewrite rev_involutive, lstrip_idem. reflexivity. Qed.

Lemma rstrip_head s :
  match s with c :: _ => isspace c = false | [] => True end ->
  match rstrip s with c :: _ => isspace c = false | [] => True end.
Proof.
  destruct s as [| c s]; [intros _; exact I|]. intros Hc.
  unfold rstrip. simpl rev. rewrite lstrip_keeps by exact Hc.
  rewrite rev_app_distr. simpl. exact Hc.
Qed.

Lemma strip_idem s : strip (strip s) = strip s.
Proof.
  unfold strip at 1.
  rewrite (lstrip_fixed (strip s)).
  - unfold strip. apply rstrip_idem.
  - unfold strip. apply rstrip_head, lstrip_head.
Qed.

Lemma startswith_app : forall p s,
  startswith s p = true -> s = p ++ skipn (len p) s.
Proof.
  induction p as [| c p IH]; intros s H; simpl in *; [reflexivity|].
  destruct s as [| d s]; [discriminate|].
  apply andb_prop in H. destruct H as [E H]. apply N.eqb_eq in E. subst d.
  simpl. f_equal. apply IH. exact H.
Qed.

Lemma startswith_app_l : forall l a b,
  startswith a l = true -> startswith (a ++ b) l = true.
Proof.
  induction l as [| c l IH]; intros a b H.
  - destruct (a ++ b); reflexivity.
  - destruct a as [| d a]; [discriminate|]. simpl in *.
    apply andb_prop in H. destruct H as [E H]. rewrite E. simpl.
    apply IH. exact H.
Qed.

Lemma startswith_self_app : forall a b : str, startswith (a ++ b) a = true.
Proof.
  induction a as [| x a IH]; intros b.
  - destruct b; reflexivity.
  - cbn [app startswith]. rewrite N.eqb_refl. apply IH.
Qed.

Lemma endswith_app (a b : str) : endswith (a ++ b) b = true.
Proof.
  unfold endswith. rewrite rev_app_distr. apply startswith_self_app.
Qed.

Lemma startswith_mem c (s : str) : startswith s [c] = true -> mem c s = true.
Proof.
  destruct s as [| x s]; [discriminate|]. cbn [startswith].
  intros H. apply andb_prop in H. destruct H as [H _].
  unfold mem. cbn [existsb]. rewrite H. reflexivity.
Qed.

Lemma contains_app_l l : forall a b,
  contains a l = true -> contains (a ++ b) l = true.
Proof.
  induction a as [| x a IH]; intros b H.
  - simpl in H. rewrite orb_false_r in H.
    destruct l; [|discriminate]. destruct b; reflexivity.
  - cbn [contains] in H. apply orb_prop in H. cbn [app contains].
    destruct H as [H | H].
    + change (x :: a ++ b) with ((x :: a) ++ b).
      rewrite (@startswith_app_l l (x :: a) b H). reflexivity.
    + rewrite (IH b H). apply orb_true_r.
Qed.

Lemma contains_app_r l : forall a b,
  contains b l = true -> contains (a ++ b) l = true.
Proof.
  induction a as [| x a IH]; intros b H; [exact H|].
  cbn [app contains]. rewrite (IH b H). apply orb_true_r.
Qed.

Lemma contains_tail l x s : contains (x :: s) l = false -> contains s l = false.
Proof.
  cbn [contains]. intros H. apply orb_false_elim in H. tauto.
Qed.

Lemma contains_single c : forall s, contains s [c] = mem c s.
Proof.
  induction s as [| x s IH]; [reflexivity|].
  cbn [contains startswith]. unfold mem. cbn [existsb].
  rewrite IH. unfold mem. destruct (N.eqb c x); [|reflexivity].
  destruct s; reflexivity.
Qed.

Lemma rfind_from_absent c p : forall s i,
  mem c s = false -> rfind_from i s (c :: p) = None.
Proof.
  induction s as [| x s IH]; intros i H; cbn [rfind_from startswith];
    [reflexivity|].
  unfold mem in H. cbn [existsb] in H. apply orb_false_elim in H.
  destruct H as [Hx H]. rewrite (IH (S i) H), Hx. reflexivity.
Qed.

Lemma rfindZ_absent c p' p s :
  p = c :: p' -> mem c s = false -> rfindZ s p = (-1)%Z.
Proof.
  intros -> H. unfold rfindZ, rfind. rewrite (@rfind_from_absent c p' s 0 H).
  reflexivity.
Qed.

Lemma replace_char_Forall (P : char -> Prop) a b s :
  Forall P b -> Forall (fun c => c = a \/ P c) s ->
  Forall P (replace_char a b s).
Proof.
  intros Hb. unfold replace_char. induction 1 as [| c s Hc Hs IH]; simpl.
  - constructor.
  - apply Forall_app. split; [|exact IH].
    destruct (N.eqb c a) eqn:E; [exact Hb|].
    constructor; [|constructor]. destruct Hc as [-> | Hc]; [|exact Hc].
    rewrite N.eqb_refl in E. discriminate.
Qed.

Lemma replace_char_absent a b s : mem a s = false -> replace_char a b s = s.
Proof.
  unfold replace_char, mem. induction s as [| c s IH]; simpl; [reflexivity|].
  intros H. apply orb_false_elim in H. destruct H as [E H].
  rewrite N.eqb_sym, E. simpl. f_equal. apply IH. exact H.
Qed.

Lemma split_class_Forall (sep : cls) s :
  Forall (fun w => forallb (fun c => negb (sep c)) w = true) (split_class sep s).
Proof.
  induction s as [| c s IH]; cbn [split_class].
  - repeat constructor.
  - destruct (sep c) eqn:E.
    + constructor; [reflexivity | exact IH].
    + destruct (split_class sep s) as [| w ws].
      * constructor; [|constructor]. cbn [forallb]. rewrite E. reflexivity.
      * inversion IH as [| ? ? Hw Hws]; subst. constructor; [|exact Hws].
        cbn [forallb]. rewrite E, Hw. reflexivity.
Qed.

(** A text between braces is an opening brace, a middle and a closing
    brace; it has no margin to strip. *)
Lemma framed_between (w : str) :
  (exists mid, w = u "{" ++ mid ++ u "}") -> framed w.
Proof.
  intros (mid & ->). split.
  - apply startswith_self_app.
  - rewrite app_assoc. apply endswith_app.
Qed.

Lemma framed_split s : framed s <-> exists mid, s = u "{" ++ mid ++ u "}".
Proof.
  split; [|apply framed_between].
  intros [Hs He].
  assert (A : exists rest, s = ch "{" :: rest).
  { apply startswith_app in Hs. eexists. exact Hs. }
  assert (B : exists pre, s = pre ++ [ch "}"]).
  { unfold endswith in He. apply startswith_app in He.
    apply (f_equal (@rev char)) in He.
    rewrite rev_involutive, rev_app_distr, rev_involutive in He.
    eexists. exact He. }
  destruct A as (rest & A), B as (pre & B). rewrite B in A.
  destruct pre as [| y m]; cbn [app] in A; [discriminate|].
  injection A as -> _. exists m. exact B.
Qed.

Lemma framed_stripped s : framed s -> strip s = s.
Proof.
  intros F. apply framed_split in F. destruct F as (mid & ->).
  unfold strip.
  rewrite (lstrip_fixed (u "{" ++ mid ++ u "}")) by reflexivity.
  unfold rstrip. rewrite app_assoc, rev_app_distr.
  rewrite lstrip_fixed by reflexivity.
  rewrite <- rev_app_distr. apply rev_involutive.
Qed.

Lemma replace_char_framed a b s :
  a <> ch "{" -> a <> ch "}" -> framed s -> framed (replace_char a b s).
Proof.
  intros Ho Hc F. apply framed_split in F. destruct F as (mid & ->).
  apply framed_between. exists (replace_char a b mid).
  unfold replace_char.
  change (u "{" ++ mid ++ u "}") with ([ch "{"] ++ mid ++ [ch "}"]).
  rewrite !flat_map_app. cbn [flat_map].
  apply N.eqb_neq in Ho, Hc. rewrite N.eqb_sym in Ho. rewrite N.eqb_sym in Hc.
  rewrite Ho, Hc. reflexivity.
Qed.

Lemma escaped_framed s : framed s -> framed (escaped s).
Proof.
  intros F. unfold escaped.
  repeat (apply replace_char_framed; [discriminate | discriminate |]).
  exact F.
Qed.

Lemma escaped_no_layout s : Forall (fun c => layout c = false) (escaped s).
Proof.
  unfold escaped. apply replace_char_Forall.
  { repeat constructor. }
  eapply Forall_impl;
    [| apply (@replace_char_Forall
                (fun c => c <> NL /\ c <> CR) CR [BSLASH; ch "r"])].
  - intros c [Hn Hc]. destruct (N.eq_dec c TAB) as [-> | Ht]; [left; reflexivity|].
    right. unfold layout, mem. simpl.
    apply N.eqb_neq in Hn, Hc, Ht. rewrite Hn, Hc, Ht. reflexivity.
  - repeat constructor; discriminate.
  - eapply Forall_impl;
      [| apply (@replace_char_Forall (fun c => c <> NL) NL [BSLASH; ch "n"])].
    + intros c Hn. destruct (N.eq_dec c CR) as [-> | Hc]; [left; reflexivity|].
      right. split; assumption.
    + repeat constructor; discriminate.
    + apply Forall_forall. intros c _.
      destruct (N.eq_dec c NL); [left | right]; assumption.
Qed.

Lemma no_layout_mem s x :
  no_layout s = true -> layout x = true -> mem x s = false.
Proof.
  unfold no_layout. intros H Hx. rewrite forallb_forall in H.
  destruct (mem x s) eqn:E; [|reflexivity].
  apply mem_In in E. apply H in E. rewrite Hx in E. discriminate.
Qed.

Lemma escaped_line s : no_layout s = true -> escaped s = s.
Proof.
  intros Hl. unfold escaped.
  rewrite (replace_char_absent NL) by (apply no_layout_mem; [exact Hl | reflexivity]).
  rewrite (replace_char_absent CR) by (apply no_layout_mem; [exact Hl | reflexivity]).
  apply replace_char_absent. apply no_layout_mem; [exact Hl | reflexivity].
Qed.

(** ** The matcher

    A successful run of the matcher on a pattern amounts to this: the
    pattern matches a prefix of the text, and the continuation is called
    behind it with the groups of the match. *)

Lemma star_greedy_sound p k : forall s pos c a,
  star_greedy p k pos s c = Some a ->
  exists n, n <= len s /\ forallb p (firstn n s) = true
            /\ k (pos + n) (skipn n s) c = Some a.
Proof.
  assert (Z : forall s pos c a, k pos s c = Some a ->
            exists n, n <= len s /\ forallb p (firstn n s) = true
                      /\ k (pos + n) (skipn n s) c = Some a).
  { intros s pos c a H. exists 0. rewrite Nat.add_0_r.
    repeat split; [lia | exact H]. }
  induction s as [| x s IH]; intros pos c a H; cbn [star_greedy] in H;
    [apply Z; exact H|].
  destruct (p x) eqn:Ep; [|apply Z; exact H].
  destruct (star_greedy p k (S pos) s c) eqn:E; [|apply Z; exact H].
  injection H as <-. apply IH in E. destruct E as (n & Hn & Hp & H).
  exists (S n). rewrite Nat.add_succ_r. cbn [firstn forallb skipn].
  rewrite Ep, Hp.
  repeat split; [cbn [len List.length]; unfold len in Hn; lia | exact H].
Qed.

Lemma star_lazy_sound p k : forall s pos c a,
  star_lazy p k pos s c = Some a ->
  exists n, n <= len s /\ forallb p (firstn n s) = true
            /\ k (pos + n) (skipn n s) c = Some a.
Proof.
  induction s as [| x s IH]; intros pos c a H; cbn [star_lazy] in H.
  - destruct (k pos [] c) eqn:E; [|discriminate]. injection H as <-.
    exists 0. rewrite Nat.add_0_r. repeat split; [lia | exact E].
  - destruct (k pos (x :: s) c) eqn:E.
    + injection H as <-. exists 0. rewrite Nat.add_0_r.
      repeat split; [lia | exact E].
    + destruct (p x) eqn:Ep; [|discriminate]. apply IH in H.
      destruct H as (n & Hn & Hp & H). exists (S n).
      rewrite Nat.add_succ_r. cbn [firstn forallb skipn]. rewrite Ep, Hp.
      repeat split; [cbn [len List.length]; unfold len in Hn; lia | exact H].
Qed.

Lemma rx_sound r : forall k pos s c a,
  rx r k pos s c = Some a ->
  exists n c', n <= len s /\ matches r (firstn n s) /\ records r c'
               /\ k (pos + n) (skipn n s) (c' ++ c) = Some a.
Proof.
  assert (Z : forall (r0 : regex) (k : kont) pos s c a,
            matches r0 [] -> records r0 [] -> k pos s c = Some a ->
            exists n c', n <= len s /\ matches r0 (firstn n s)
                         /\ records r0 c'
                         /\ k (pos + n) (skipn n s) (c' ++ c) = Some a).
  { intros r0 k pos s c a Hm Hr H. exists 0, []. rewrite Nat.add_0_r.
    repeat split; [lia | exact Hm | exact Hr | exact H]. }
  induction r as [| | | p | l | r1 IH1 r2 IH2 | r1 IH1 r2 IH2 | r IH
                  | g p | g r IH];
    intros k pos s c a H; cbn [rx] in H.
  - apply Z; [reflexivity | reflexivity | exact H].
  - destruct (Nat.eqb pos 0); [|discriminate].
    apply Z; [reflexivity | reflexivity | exact H].
  - destruct s as [| x [| y s]]; [| |discriminate].
    + apply Z; [reflexivity | reflexivity | exact H].
    + destruct (N.eqb x NL); [|discriminate].
      apply Z; [reflexivity | reflexivity | exact H].
  - destruct s as [| x s]; [discriminate|].
    destruct (p x) eqn:Ep; [|discriminate].
    exists 1, []. rewrite Nat.add_1_r.
    repeat split; [cbn [len List.length]; lia | | exact H].
    exists x. split; [reflexivity | exact Ep].
  - destruct (startswith s l) eqn:E; [|discriminate].
    pose proof (startswith_app _ _ E) as Hs.
    exists (len l), []. repeat split; [| | exact H].
    + rewrite Hs. unfold len. rewrite length_app. lia.
    + cbn [matches]. rewrite Hs. unfold len. rewrite firstn_app, Nat.sub_diag.
      rewrite firstn_all. cbn [firstn]. apply app_nil_r.
  - apply IH1 in H. destruct H as (n1 & c1 & L1 & M1 & R1 & H).
    apply IH2 in H. destruct H as (n2 & c2 & L2 & M2 & R2 & H).
    exists (n1 + n2), (c2 ++ c1). rewrite len_skipn in L2.
    repeat split.
    + lia.
    + exists (firstn n1 s), (firstn n2 (skipn n1 s)).
      split; [apply firstn_add | split; assumption].
    + exists c1, c2. repeat split; assumption.
    + rewrite Nat.add_assoc, skipn_add, <- app_assoc. exact H.
  - destruct (rx r1 k pos s c) eqn:E.
    + injection H as <-. apply IH1 in E.
      destruct E as (n & c' & L & M & R & H). exists n, c'.
      repeat split; [exact L | left; exact M | left; exact R | exact H].
    + apply IH2 in H.
      destruct H as (n & c' & L & M & R & H). exists n, c'.
      repeat split; [exact L | right; exact M | right; exact R | exact H].
  - destruct (rx r k pos s c) eqn:E.
    + injection H as <-. apply IH in E.
      destruct E as (n & c' & L & M & R & H). exists n, c'.
      repeat split; [exact L | right; exact M | right; exact R | exact H].
    + apply Z; [left; reflexivity | left; reflexivity | exact H].
  - destruct g.
    + apply star_greedy_sound in H. destruct H as (n & L & M & H).
      exists n, []. repeat split; assumption.
    + apply star_lazy_sound in H. destruct H as (n & L & M & H).
      exists n, []. repeat split; assumption.
  - apply IH in H. destruct H as (n & c' & L & M & R & H).
    exists n, ((g, firstn n s) :: c').
    replace (pos + n - pos) with n in H by lia.
    repeat split; [exact L | exact M | | exact H].
    exists (firstn n s), c'. repeat split; assumption.
Qed.

Lemma match_at_text r pos s m :
  match_at r pos s = Some m -> m_text m = firstn (len (m_text m)) s.
Proof.
  unfold match_at.
  destruct (rx r accept pos s []) as [[rest c]|]; [|discriminate].
  intros H. injection H as <-. simpl. unfold len.
  rewrite length_firstn.
  destruct (Nat.le_ge_cases (List.length s - List.length rest) (List.length s))
    as [L | L].
  - rewrite Nat.min_l by exact L. reflexivity.
  - rewrite Nat.min_r by exact L. rewrite firstn_all.
    apply firstn_all2. exact L.
Qed.

Lemma match_at_sound r pos s m :
  match_at r pos s = Some m ->
  matches r (m_text m) /\ records r (m_caps m).
Proof.
  unfold match_at. destruct (rx r accept pos s []) as [[rest c]|] eqn:E;
    [|discriminate].
  intros H. injection H as <-. cbn [m_text m_caps].
  apply rx_sound in E. destruct E as (n & c' & L & M & R & H).
  unfold accept in H. injection H as <- <-.
  rewrite app_nil_r, len_skipn.
  replace (len s - (len s - n)) with n by lia. split; assumption.
Qed.

Lemma search_from_match r : forall s pos m,
  search_from r pos s = Some m -> exists pos' s', match_at r pos' s' = Some m.
Proof.
  induction s as [| x s IH]; intros pos m H; cbn [search_from] in H.
  - destruct (match_at r pos []) eqn:E; [|discriminate].
    injection H as <-. exists pos, []. exact E.
  - destruct (match_at r pos (x :: s)) eqn:E.
    + injection H as <-. exists pos, (x :: s). exact E.
    + eapply IH. exact H.
Qed.

Lemma search_sound r s m :
  search r s = Some m -> matches r (m_text m) /\ records r (m_caps m).
Proof.
  intros H. apply search_from_match in H. destruct H as (pos & s' & H).
  eapply match_at_sound. exact H.
Qed.

Lemma group_first n w c : group n ((n, w) :: c) = w.
Proof.
  unfold group. cbn [List.find fst snd]. rewrite Nat.eqb_refl. reflexivity.
Qed.

(** A text every match holds is a text without which nothing matches. *)
Lemma matches_requires l r : forall w,
  requires l r = true -> matches r w -> contains w l = true.
Proof.
  induction r as [| | | p | l' | r1 IH1 r2 IH2 | r1 IH1 r2 IH2 | r IH
                  | g p | n r IH];
    intros w Hr M; cbn [requires] in Hr; try discriminate; cbn [matches] in M.
  - subst w. exact Hr.
  - destruct M as (w1 & w2 & -> & M1 & M2).
    apply orb_prop in Hr. destruct Hr as [Hr | Hr].
    + apply contains_app_l. apply IH1; assumption.
    + apply contains_app_r. apply IH2; assumption.
  - apply andb_prop in Hr. destruct Hr as [Hr1 Hr2].
    destruct M as [M | M]; [apply IH1 | apply IH2]; assumption.
  - apply IH; assumption.
Qed.

Lemma match_at_requires l r pos s :
  requires l r = true -> contains s l = false -> match_at r pos s = None.
Proof.
  intros Hr Hn. destruct (match_at r pos s) as [m|] eqn:E; [|reflexivity].
  pose proof (@match_at_text _ _ _ _ E) as T.
  apply match_at_sound in E. destruct E as [M _].
  pose proof (@matches_requires l r _ Hr M) as C.
  rewrite T in C. rewrite <- (firstn_skipn (len (m_text m)) s) in Hn.
  rewrite (@contains_app_l l _ _ C) in Hn. discriminate.
Qed.

Lemma search_requires l r : forall s pos,
  requires l r = true -> contains s l = false -> search_from r pos s = None.
Proof.
  induction s as [| y s IH]; intros pos Hr Hn; simpl;
    rewrite (@match_at_requires l r pos _ Hr Hn); [reflexivity|].
  apply IH; [exact Hr | eapply contains_tail; exact Hn].
Qed.

(** Where the pattern cannot match, the scan passes every character to
    [miss]. *)
Lemma scan_requires A l r (hit : found -> list A) miss : forall s pos,
  requires l r = true -> contains s l = false ->
  scan r hit miss pos 0 s = flat_map miss s.
Proof.
  induction s as [| y s IH]; intros pos Hr Hn; simpl; [reflexivity|].
  rewrite (@match_at_requires l r pos _ Hr Hn). f_equal.
  apply IH; [exact Hr | eapply contains_tail; exact Hn].
Qed.

Lemma sub_requires c r tpl s :
  requires [c] r = true -> mem c s = false -> sub r tpl s = s.
Proof.
  intros Hr Hm. unfold sub.
  rewrite (@scan_requires _ [c] r _ _ s 0 Hr)
    by (rewrite contains_single; exact Hm).
  apply flat_map_single.
Qed.

Lemma findall0_requires l r s :
  requires l r = true -> contains s l = false -> findall0 r s = [].
Proof.
  intros Hr Hn. unfold findall0.
  rewrite (@scan_requires _ l r _ _ s 0 Hr Hn). apply flat_map_nil.
Qed.

Lemma locate_requires l patterns s :
  forallb (requires l) patterns = true -> contains s l = false ->
  locate patterns s = None.
Proof.
  induction patterns as [| p ps IH]; intros H Hn; simpl; [reflexivity|].
  simpl in H. apply andb_prop in H. destruct H as [Hp Hps].
  unfold search. rewrite (@search_requires l p s 0 Hp Hn). apply IH; assumption.
Qed.

Lemma locate_found patterns s p :
  locate patterns s = Some p ->
  exists r m, In r patterns /\ search r s = Some m /\ p = group 1 (m_caps m).
Proof.
  induction patterns as [| r rest IH]; cbn [locate]; [discriminate|].
  destruct (search r s) as [m|] eqn:E.
  - intros [= <-]. exists r, m. repeat split; [left; reflexivity | exact E].
  - intros H. destruct (IH H) as (r' & m & I & S' & P).
    exists r', m. repeat split; [right; exact I | exact S' | exact P].
Qed.

(** A deletion leaves the characters of the text. *)
Lemma scan_delete_Forall (P : char -> Prop) r : forall s pos skip,
  Forall P s -> Forall P (scan r (fun _ => []) (fun x => [x]) pos skip s).
Proof.
  induction s as [| x s IH]; intros pos skip H; simpl; [constructor|].
  inversion H as [| ? ? Hx Hs]; subst.
  destruct skip as [| k]; [|apply IH; exact Hs].
  destruct (match_at r pos (x :: s)) as [m|].
  - destruct (len (m_text m)); simpl.
    + constructor; [exact Hx | apply IH; exact Hs].
    + apply IH; exact Hs.
  - simpl. constructor; [exact Hx | apply IH; exact Hs].
Qed.

Lemma delete_Forall (P : char -> Prop) r s :
  Forall P s -> Forall P (delete r s).
Proof. intros H. unfold delete, sub. apply scan_delete_Forall. exact H. Qed.

(** A deletion keeps a first and a last character that no match holds. *)
Lemma scan_delete_head r c :
  (forall pos s m, match_at r pos s = Some m -> mem c (m_text m) = false) ->
  forall pos s,
    scan r (fun _ => []) (fun x => [x]) pos 0 (c :: s)
    = c :: scan r (fun _ => []) (fun x => [x]) (S pos) 0 s.
Proof.
  intros Hr pos s. cbn [scan].
  destruct (match_at r pos (c :: s)) as [m|] eqn:E; [|reflexivity].
  destruct (len (m_text m)) as [| k] eqn:El; [reflexivity|].
  pose proof (Hr _ _ _ E) as Hm. rewrite (@match_at_text _ _ _ _ E), El in Hm.
  apply mem_firstn_cons in Hm. destruct Hm as [Hm _].
  rewrite N.eqb_refl in Hm. discriminate.
Qed.

Lemma scan_delete_last r c :
  (forall pos s m, match_at r pos s = Some m -> mem c (m_text m) = false) ->
  forall s pos skip t,
    s = t ++ [c] -> mem c (firstn skip s) = false ->
    exists t', scan r (fun _ => []) (fun x => [x]) pos skip s = t' ++ [c].
Proof.
  intros Hr. induction s as [| x s IH]; intros pos skip t Hs Hk.
  - destruct t; discriminate.
  - assert (T : s = [] /\ x = c \/ exists t1, s = t1 ++ [c]).
    { destruct t as [| y t1]; cbn [app] in Hs; injection Hs as -> ->.
      - left. split; reflexivity.
      - right. exists t1. reflexivity. }
    assert (K : forall k, mem c (firstn (S k) (x :: s)) = false ->
                exists t', scan r (fun _ => []) (fun y => [y]) (S pos) k s
                           = t' ++ [c]).
    { intros k Hm. apply mem_firstn_cons in Hm. destruct Hm as [Hx Hm].
      destruct T as [[-> ->] | (t1 & E)].
      - rewrite N.eqb_refl in Hx. discriminate.
      - eapply IH; [exact E | exact Hm]. }
    assert (M : exists t',
                [x] ++ scan r (fun _ => []) (fun y => [y]) (S pos) 0 s
                = t' ++ [c]).
    { destruct T as [[-> ->] | (t1 & E)].
      - exists []. reflexivity.
      - destruct (IH (S pos) 0 t1 E eq_refl) as (t' & ->).
        exists (x :: t'). reflexivity. }
    cbn [scan]. destruct skip as [| k]; [|apply K; exact Hk].
    destruct (match_at r pos (x :: s)) as [m|] eqn:E; [|exact M].
    destruct (len (m_text m)) as [| k] eqn:El; [exact M|].
    cbn [app]. apply K.
    pose proof (Hr _ _ _ E) as Hm. rewrite (@match_at_text _ _ _ _ E), El in Hm.
    exact Hm.
Qed.

Lemma delete_framed r s :
  (forall pos s m, match_at r pos s = Some m ->
                   mem (ch "{") (m_text m) = false
                   /\ mem (ch "}") (m_text m) = false) ->
  framed s -> framed (delete r s).
Proof.
  intros Hr F. apply framed_split in F. destruct F as (mid & ->).
  apply framed_split. unfold delete, sub.
  change (u "{" ++ mid ++ u "}") with (ch "{" :: (mid ++ [ch "}"])).
  rewrite (@scan_delete_head r (ch "{")) by (intros; eapply Hr; eassumption).
  destruct (@scan_delete_last r (ch "}")
              (fun pos s m E => proj2 (Hr pos s m E))
              (mid ++ [ch "}"]) 1 0 mid eq_refl eq_refl) as (t' & ->).
  exists t'. reflexivity.
Qed.

(** A substitution whose template gives back the text of the match changes
    nothing. *)
Lemma scan_identity r (hit : found -> str) :
  (forall pos s m, match_at r pos s = Some m -> hit m = m_text m) ->
  forall s pos skip,
    skip <= len s ->
    scan r hit (fun x => [x]) pos skip s = skipn skip s.
Proof.
  intros Hhit. induction s as [| x s IH]; intros pos skip Hs; simpl.
  - destruct skip; reflexivity.
  - destruct skip as [| k].
    + destruct (match_at r pos (x :: s)) as [m|] eqn:E.
      * destruct (len (m_text m)) as [| k] eqn:El.
        -- simpl. f_equal. apply (IH (S pos) 0). lia.
        -- rewrite (Hhit _ _ _ E). pose proof (@match_at_text _ _ _ _ E) as Ht.
           rewrite El in Ht.
           assert (Hk : k <= len s).
           { assert (L : len (m_text m) <= len (x :: s)).
             { rewrite Ht. unfold len. rewrite length_firstn. lia. }
             rewrite El in L. simpl in L. unfold len in *. lia. }
           rewrite IH by exact Hk. rewrite Ht.
           change (skipn k s) with (skipn (S k) (x :: s)).
           apply firstn_skipn.
      * simpl. f_equal. apply (IH (S pos) 0). lia.
    + simpl in Hs. apply IH. unfold len in *. lia.
Qed.

(** ** Dictionaries, again *)

Lemma str_eqb_eq a b : str_eqb a b = true <-> a = b.
Proof.
  unfold str_eqb. destruct (list_eq_dec N.eq_dec a b); split; congruence.
Qed.

Lemma str_eqb_refl a : str_eqb a a = true.
Proof. apply str_eqb_eq. reflexivity. Qed.

Lemma str_eqb_neq a b : str_eqb a b = false <-> a <> b.
Proof.
  unfold str_eqb. destruct (list_eq_dec N.eq_dec a b); split; congruence.
Qed.

Lemma existsb_str_In k ks : existsb (str_eqb k) ks = true <-> In k ks.
Proof.
  rewrite existsb_exists. split.
  - intros (x & Hx & E). apply str_eqb_eq in E. subst. exact Hx.
  - intros H. exists k. split; [exact H | apply str_eqb_refl].
Qed.

Lemma lookup_set_same k v d : lookup k (set k v d) = Some v.
Proof.
  induction d as [| [k' v'] d IH]; cbn [set lookup].
  - rewrite str_eqb_refl. reflexivity.
  - destruct (str_eqb k' k) eqn:E; cbn [lookup]; rewrite E;
      [reflexivity | exact IH].
Qed.

Lemma lookup_set_other k k' v d :
  k <> k' -> lookup k' (set k v d) = lookup k' d.
Proof.
  intros N. induction d as [| [k0 v0] d IH]; cbn [set lookup].
  - apply str_eqb_neq in N. rewrite N. reflexivity.
  - destruct (str_eqb k0 k) eqn:E; cbn [lookup].
    + apply str_eqb_eq in E. subst k0. apply str_eqb_neq in N. rewrite N.
      reflexivity.
    + rewrite IH. reflexivity.
Qed.

Lemma required_keys_NoDup : NoDup required_keys.
Proof.
  unfold required_keys.
  repeat (constructor; [cbn [In]; vm_compute; intuition discriminate|]).
  constructor.
Qed.

Lemma lookup_four k a b c d :
  In k required_keys ->
  lookup k [(FR, a); (NFR, b); (TS, c); (RISK, d)]
  = Some (if str_eqb k FR then a else if str_eqb k NFR then b
          else if str_eqb k TS then c else d).
Proof.
  unfold required_keys. cbn [In].
  intros [<- | [<- | [<- | [<- | []]]]]; vm_compute; reflexivity.
Qed.

Lemma lookup_ts_third a b c d :
  lookup TS [(FR, a); (NFR, b); (TS, c); (RISK, d)] = Some c.
Proof. vm_compute. reflexivity. Qed.

Lemma lookup_ts_last a b c d :
  lookup TS [(FR, a); (NFR, b); (RISK, c); (TS, d)] = Some d.
Proof. vm_compute. reflexivity. Qed.

Lemma set_ts_last a b c d :
  set TS d [(FR, a); (NFR, b); (RISK, c)]
  = [(FR, a); (NFR, b); (RISK, c); (TS, d)].
Proof. vm_compute. reflexivity. Qed.

Lemma validate_built a b c d :
  _validate_analysis_result [(FR, a); (NFR, b); (RISK, c); (TS, PList d)]
  = (is_list a && (is_list b && (true && (is_list c && true))))%bool.
Proof. vm_compute. reflexivity. Qed.

(** ** PayloadRepairer *)

(** The pattern of line 616 has three groups that together with the two
    quotes make up the whole match; the template writes them back. *)
Lemma quote_match pos s m :
  match_at quote_pattern pos s = Some m ->
  quote_template (m_caps m) = m_text m.
Proof.
  unfold match_at.
  destruct (rx quote_pattern accept pos s []) as [[rest c]|] eqn:E;
    [|discriminate].
  intros H. injection H as <-. cbn [m_caps m_text].
  unfold quote_pattern in E. cbn [rseq rx] in E.
  destruct s as [| x s1]; [discriminate|].
  destruct (not_backslash x); [|discriminate].
  replace (S pos - pos) with 1 in E by lia.
  cbn [startswith len List.length skipn] in E.
  destruct s1 as [| y s2]; [discriminate|].
  cbn [startswith] in E.
  destruct (N.eqb DQUOTE y) eqn:Ey; [|discriminate].
  apply N.eqb_eq in Ey. subst y.
  replace (startswith s2 []) with true in E by (destruct s2; reflexivity).
  cbn [andb] in E.
  apply star_lazy_sound in E. destruct E as (n & Hn & _ & E).
  cbv beta in E.
  replace (S (S pos + 1 + n) - (S pos + 1 + n)) with 1 in E by lia.
  replace (S pos + 1 + n - (S pos + 1)) with n in E by lia.
  destruct (skipn n s2) as [| z s3] eqn:Es; [discriminate|].
  destruct (not_backslash z); [|discriminate].
  destruct s3 as [| w s4]; [discriminate|].
  cbn [startswith] in E.
  destruct (N.eqb DQUOTE w) eqn:Ew; [|discriminate].
  apply N.eqb_eq in Ew. subst w.
  replace (startswith s4 []) with true in E by (destruct s4; reflexivity).
  cbn [andb] in E. unfold accept in E. injection E as <- <-.
  unfold quote_template, group. cbn [List.find fst snd Nat.eqb firstn].
  assert (L : List.length (firstn n s2) = n)
    by (rewrite length_firstn; unfold len in Hn; lia).
  assert (S2 : s2 = firstn n s2 ++ z :: DQUOTE :: s4)
    by (rewrite <- Es; symmetry; apply firstn_skipn).
  set (g := firstn n s2) in *. clearbody g. subst s2.
  unfold len. cbn [List.length]. rewrite !length_app. cbn [List.length].
  rewrite L.
  replace (S (S (n + S (S (List.length s4)))) - List.length s4)
    with (S (S (n + 2))) by lia.
  cbn [firstn app]. f_equal. f_equal.
  rewrite firstn_app, L.
  replace (n + 2 - n) with 2 by lia. cbn [firstn].
  rewrite firstn_all2 by lia. reflexivity.
Qed.

Lemma quote_sub_id s : sub quote_pattern quote_template s = s.
Proof.
  unfold sub.
  rewrite (@scan_identity quote_pattern (fun m => quote_template (m_caps m)));
    [reflexivity | | lia].
  intros pos t m. apply quote_match.
Qed.

(** What the conservative pass does before it may cut. *)
Lemma fix_unfold s :
  _fix_json_format s
  = if (startswith (strip (escaped s)) (u "{")
        && negb (endswith (strip (escaped s)) (u "}")))%bool
    then
      if Z.ltb 0 (Z.max (Z.max (rfindZ (escaped s) (q "',"))
                               (rfindZ (escaped s) (q "'],")))
                        (rfindZ (escaped s) (q "'},")))
      then cut_and_close (escaped s)
             (Z.max (Z.max (rfindZ (escaped s) (q "',"))
                           (rfindZ (escaped s) (q "'],")))
                    (rfindZ (escaped s) (q "'},")) + 2) "}"
      else escaped s
    else escaped s.
Proof. unfold _fix_json_format. rewrite quote_sub_id. reflexivity. Qed.

Lemma fix_closed_line s :
  no_layout s = true -> closed s = true -> _fix_json_format s = s.
Proof.
  intros Hl Hc. rewrite fix_unfold, (@escaped_line _ Hl).
  unfold closed in Hc.
  destruct (startswith (strip s) (u "{")); [|reflexivity].
  cbn [negb orb] in Hc. rewrite Hc. reflexivity.
Qed.

Lemma fix_framed s : framed s -> _fix_json_format s = escaped s.
Proof.
  intros F. apply escaped_framed in F.
  rewrite fix_unfold, (@framed_stripped _ F). destruct F as [-> ->].
  reflexivity.
Qed.

(** X1: the substitution of line 616, meant to repair quotes, gives back
    the text it is given, whatever the text. *)
Theorem quote_substitution_changes_nothing (json_str : str) :
  sub quote_pattern quote_template json_str = json_str.
Proof.
  unfold sub.
  rewrite (@scan_identity quote_pattern (fun m => quote_template (m_caps m)));
    [reflexivity | | lia].
  intros pos t m. apply quote_match.
Qed.

(** X2: the text the conservative pass returns holds no line break, no
    carriage return and no tab. *)
Theorem conservative_pass_leaves_no_layout (json_str : str) :
  no_layout (_fix_json_format json_str) = true.
Proof.
  unfold no_layout. apply Forall_forallb.
  assert (H : Forall (fun c => negb (layout c) = true) (escaped json_str)).
  { eapply Forall_impl; [|apply escaped_no_layout].
    intros c ->. reflexivity. }
  rewrite fix_unfold.
  match goal with
  | |- context [if ?b then _ else _] => destruct b
  end; [|exact H].
  match goal with
  | |- context [if ?b then _ else _] => destruct b
  end; [|exact H].
  unfold cut_and_close. apply Forall_app. split.
  - apply firstn_Forall. exact H.
  - repeat constructor.
Qed.

(** X3: a text without line break, carriage return and tab that is not an
    object left open comes back from the conservative pass as it is. *)
Theorem conservative_pass_keeps_closed_line (json_str : str) :
  no_layout json_str = true -> closed json_str = true ->
  _fix_json_format json_str = json_str.
Proof.
  intros Hl Hc. rewrite fix_unfold.
  replace (escaped json_str) with json_str by (symmetry; apply escaped_line, Hl).
  unfold closed in Hc. destruct (startswith (strip json_str) (u "{")).
  - cbn [negb orb] in Hc. rewrite Hc. reflexivity.
  - reflexivity.
Qed.

Lemma conservative_pass_keeps_witness :
  _fix_json_format payload_one_line = payload_one_line.
Proof.
  apply conservative_pass_keeps_closed_line; vm_compute; reflexivity.
Defined.

(** X4: the conservative pass cuts a text only when it starts with a brace
    and does not end with one; a text between braces is only escaped, and
    stays between braces. *)
Theorem conservative_pass_on_framed (json_str : str) :
  startswith json_str (u "{") = true -> endswith json_str (u "}") = true ->
  _fix_json_format json_str = escaped json_str
  /\ startswith (_fix_json_format json_str) (u "{") = true
  /\ endswith (_fix_json_format json_str) (u "}") = true.
Proof.
  intros Hs He. assert (F : framed json_str) by (split; assumption).
  rewrite (@fix_framed _ F). split; [reflexivity|].
  apply escaped_framed. exact F.
Qed.

Lemma conservative_pass_on_framed_witness :
  _fix_json_format payload_lines = escaped payload_lines
  /\ startswith (_fix_json_format payload_lines) (u "{") = true
  /\ endswith (_fix_json_format payload_lines) (u "}") = true.
Proof.
  apply conservative_pass_on_framed; vm_compute; reflexivity.
Defined.

(** X5: the aggressive pass changes only a text that holds a double quote,
    a colon or an opening bracket: every substitution of it needs one of
    them, and so does each of the two cuts. *)
Theorem aggressive_pass_needs_marks (json_str : str) :
  mem DQUOTE json_str = false ->
  mem (ch ":") json_str = false ->
  mem (ch "[") json_str = false ->
  _fix_json_aggressive json_str = json_str.
Proof.
  intros Hq Hc Hb. unfold _fix_json_aggressive.
  rewrite (@sub_requires (ch "[") between_arrays _ json_str eq_refl Hb).
  rewrite (@sub_requires DQUOTE between_quotes _ json_str eq_refl Hq).
  rewrite (@sub_requires (ch ":") bare_key _ json_str eq_refl Hc).
  rewrite (@sub_requires (ch ":") bare_value _ json_str eq_refl Hc).
  rewrite (@sub_requires (ch "[") bare_element _ json_str eq_refl Hb).
  rewrite (@rfindZ_absent DQUOTE _ (q "',") json_str eq_refl Hq).
  rewrite (@rfindZ_absent DQUOTE _ (q "'],") json_str eq_refl Hq).
  rewrite (@rfindZ_absent DQUOTE _ (q "'},") json_str eq_refl Hq).
  rewrite (@rfindZ_absent DQUOTE _ [DQUOTE] json_str eq_refl Hq).
  assert (B : startswith (strip json_str) (u "[") = false).
  { destruct (startswith (strip json_str) (u "[")) eqn:E; [|reflexivity].
    apply (@startswith_mem (ch "[")) in E.
    rewrite (@strip_mem _ _ Hb) in E. discriminate. }
  change (Z.max (Z.max (Z.max (-1) (-1)) (-1)) (-1)) with (-1)%Z.
  change (0 <? -1)%Z with false. cbv iota.
  assert (I : (if (startswith (strip json_str) (u "{")
                   && negb (endswith (strip json_str) (u "}")))%bool
               then json_str else json_str) = json_str)
    by (destruct (startswith (strip json_str) (u "{")
                  && negb (endswith (strip json_str) (u "}")))%bool;
        reflexivity).
  rewrite I, B. reflexivity.
Qed.

Lemma aggressive_pass_witness : _fix_json_aggressive plain_text = plain_text.
Proof.
  apply aggressive_pass_needs_marks; vm_compute; reflexivity.
Defined.

(** ** PayloadLocator *)

Lemma locator_group_framed r c :
  In r locator_patterns -> records r c -> framed (group 1 c).
Proof.
  unfold locator_patterns. cbn [In rseq].
  intros [<- | [<- | [<- | [<- | [<- | []]]]]] H; break;
    rewrite ?app_nil_r, ?app_nil_l; rewrite group_first;
    (split; [apply startswith_self_app | rewrite ?app_assoc; apply endswith_app]).
Qed.

Lemma located_framed response_str json_str :
  locate locator_patterns response_str = Some json_str -> framed json_str.
Proof.
  intros H. apply locate_found in H. destruct H as (r & m & I & S' & ->).
  apply search_sound in S'. destruct S' as [_ R].
  exact (@locator_group_framed _ _ I R).
Qed.

Lemma fence_marks_text pos s m :
  match_at fence_marks pos s = Some m ->
  mem (ch "{") (m_text m) = false /\ mem (ch "}") (m_text m) = false.
Proof.
  intros H. apply match_at_sound in H. destruct H as [[H | H] _];
    cbn [matches] in H; rewrite H; vm_compute; split; reflexivity.
Qed.

Lemma locator_needs_open : forallb (requires (u "{")) locator_patterns = true.
Proof. vm_compute. reflexivity. Qed.

Lemma locator_needs_close : forallb (requires (u "}")) locator_patterns = true.
Proof. vm_compute. reflexivity. Qed.

Lemma sections_valid t : finalize (from_sections t) = from_sections t.
Proof.
  unfold finalize, from_sections. rewrite validate_four. reflexivity.
Qed.

(** X6: the payload the locator returns starts with an opening brace and
    ends with a closing one, so that stripping it changes nothing. *)
Theorem located_payload_is_framed (response_str json_str : str) :
  locate locator_patterns response_str = Some json_str ->
  startswith json_str (u "{") = true
  /\ endswith json_str (u "}") = true
  /\ strip json_str = json_str.
Proof.
  intros H. apply located_framed in H.
  pose proof (@framed_stripped _ H) as S'. destruct H as [F1 F2].
  repeat split; assumption.
Qed.

Lemma located_payload_witness :
  startswith payload_one_line (u "{") = true
  /\ endswith payload_one_line (u "}") = true
  /\ strip payload_one_line = payload_one_line.
Proof.
  apply (@located_payload_is_framed (fenced payload_one_line)).
  vm_compute. reflexivity.
Defined.

(** X7: on the payload path the conservative pass never cuts: the text it
    is given is the located payload without its fence marks, which is
    between braces, and what it returns is that text with the line breaks,
    carriage returns and tabs escaped. *)
Theorem located_payload_is_never_cut (response_str json_str : str) :
  locate locator_patterns response_str = Some json_str ->
  _fix_json_format (delete fence_marks (strip json_str))
  = escaped (delete fence_marks json_str).
Proof.
  intros H. apply located_framed in H.
  rewrite (@framed_stripped _ H). apply fix_framed.
  apply delete_framed; [apply fence_marks_text | exact H].
Qed.

Lemma located_payload_never_cut_witness :
  _fix_json_format (delete fence_marks (strip payload_lines))
  = escaped (delete fence_marks payload_lines).
Proof.
  apply (@located_payload_is_never_cut (fenced payload_lines)).
  vm_compute. reflexivity.
Defined.

(** X8: a response without an opening brace, or without a closing one,
    holds no payload for the locator; its record is the one of the four
    heading scanners, which the finaliser leaves as it is. *)
Theorem no_brace_no_payload (response_str : str) :
  contains response_str (u "{") = false
  \/ contains response_str (u "}") = false ->
  locate locator_patterns response_str = None
  /\ recover response_str = from_sections response_str.
Proof.
  intros H.
  assert (L : locate locator_patterns response_str = None).
  { destruct H as [H | H].
    - exact (@locate_requires _ _ _ locator_needs_open H).
    - exact (@locate_requires _ _ _ locator_needs_close H). }
  split; [exact L|]. rewrite recover_unfold, L. apply sections_valid.
Qed.

Lemma no_brace_witness :
  locate locator_patterns functional_only = None
  /\ recover functional_only = from_sections functional_only.
Proof.
  apply no_brace_no_payload. left. vm_compute. reflexivity.
Defined.

(** ** StructureValidator *)

Lemma opens_cons x s :
  opens (x :: s) = ((if N.eqb x (ch "{") then 1 else 0) + opens s)%Z.
Proof.
  unfold opens. cbn [count_occ].
  destruct (N.eq_dec x (ch "{")) as [E | E].
  - rewrite E, N.eqb_refl. lia.
  - apply N.eqb_neq in E. rewrite E. lia.
Qed.

Lemma closes_cons x s :
  closes (x :: s) = ((if N.eqb x (ch "}") then 1 else 0) + closes s)%Z.
Proof.
  unfold closes. cbn [count_occ].
  destruct (N.eq_dec x (ch "}")) as [E | E].
  - rewrite E, N.eqb_refl. lia.
  - apply N.eqb_neq in E. rewrite E. lia.
Qed.

(** The loop that counts braces, started at [c], accepts exactly the texts
    whose closing braces never exceed [c] plus the opening ones, and match
    them at the end. *)
Lemma braces_balanced_spec s : forall c, (0 <= c)%Z ->
  braces_balanced s c = true <->
  ((c + opens s = closes s)%Z
   /\ forall n, (closes (firstn n s) <= c + opens (firstn n s))%Z).
Proof.
  induction s as [| x s IH]; intros c Hc.
  - cbn [braces_balanced]. rewrite Z.eqb_eq. split.
    + intros ->. split; [reflexivity|]. intros n. rewrite firstn_nil.
      reflexivity.
    + intros [E _]. unfold opens, closes in E. simpl in E. lia.
  - cbn [braces_balanced]. rewrite opens_cons, closes_cons.
    assert (B : N.eqb x (ch "{") = true -> N.eqb x (ch "}") = false).
    { intros E. apply N.eqb_eq in E. subst x. reflexivity. }
    assert (Z0 : (closes (firstn 0 (x :: s)) <= c + opens (firstn 0 (x :: s)))%Z).
    { cbn [firstn]. unfold opens, closes. simpl. lia. }
    destruct (N.eqb x (ch "{")) eqn:Eo.
    + rewrite (B eq_refl).
      destruct (Z.ltb_spec (c + 1) 0) as [L | L]; [lia|].
      rewrite (IH (c + 1)%Z) by lia. split.
      * intros [E P]. split; [lia|]. intros [| n]; [exact Z0|].
        cbn [firstn]. rewrite opens_cons, closes_cons, Eo, (B eq_refl).
        specialize (P n). lia.
      * intros [E P]. split; [lia|]. intros n. specialize (P (S n)).
        cbn [firstn] in P.
        rewrite opens_cons, closes_cons, Eo, (B eq_refl) in P. lia.
    + destruct (N.eqb x (ch "}")) eqn:Ec.
      * destruct (Z.ltb_spec (c - 1) 0) as [L | L].
        -- split; [discriminate|]. intros [_ P]. specialize (P 1).
           cbn [firstn] in P. rewrite opens_cons, closes_cons, Eo, Ec in P.
           unfold opens, closes in P. simpl in P. lia.
        -- rewrite (IH (c - 1)%Z) by lia. split.
           ++ intros [E P]. split; [lia|]. intros [| n]; [exact Z0|].
              cbn [firstn]. rewrite opens_cons, closes_cons, Eo, Ec.
              specialize (P n). lia.
           ++ intros [E P]. split; [lia|]. intros n. specialize (P (S n)).
              cbn [firstn] in P.
              rewrite opens_cons, closes_cons, Eo, Ec in P. lia.
      * destruct (Z.ltb_spec c 0) as [L | L]; [lia|].
        rewrite (IH c) by lia. split.
        -- intros [E P]. split; [lia|]. intros [| n]; [exact Z0|].
           cbn [firstn]. rewrite opens_cons, closes_cons, Eo, Ec.
           specialize (P n). lia.
        -- intros [E P]. split; [lia|]. intros n. specialize (P (S n)).
           cbn [firstn] in P.
           rewrite opens_cons, closes_cons, Eo, Ec in P. lia.
Qed.

Lemma valid_ends s :
  _is_valid_json_format s = true -> endswith (strip s) (u "}") = true.
Proof.
  unfold _is_valid_json_format.
  destruct (startswith (strip s) (u "{")); [|discriminate].
  destruct (endswith (strip s) (u "}")); [reflexivity | discriminate].
Qed.

(** X9: the validator accepts a text exactly when, stripped, it starts
    with an opening brace, ends with a closing one, holds a double quote,
    and its braces pair up. *)
Theorem validator_accepts_iff (json_str : str) :
  _is_valid_json_format json_str = true <->
  (startswith (strip json_str) (u "{") = true
   /\ endswith (strip json_str) (u "}") = true
   /\ mem DQUOTE (strip json_str) = true
   /\ nested (strip json_str)).
Proof.
  unfold _is_valid_json_format, nested.
  destruct (startswith (strip json_str) (u "{")); cbn [andb negb];
    [| split; [discriminate | intros [H _]; discriminate]].
  destruct (endswith (strip json_str) (u "}")); cbn [andb negb];
    [| split; [discriminate | intros (_ & H & _); discriminate]].
  destruct (mem DQUOTE (strip json_str)); cbn [andb negb];
    [| split; [discriminate | intros (_ & _ & H & _); discriminate]].
  rewrite braces_balanced_spec by lia. split.
  - intros [E P]. repeat split; [lia|]. intros n. specialize (P n). lia.
  - intros (_ & _ & _ & E & P). split; [lia|]. intros n. specialize (P n). lia.
Qed.

(** X10: the verdict of the validator does not depend on the whitespace
    around the text. *)
Theorem validator_ignores_margin (json_str : str) :
  _is_valid_json_format (strip json_str) = _is_valid_json_format json_str.
Proof.
  unfold _is_valid_json_format. rewrite strip_idem. reflexivity.
Qed.

(** ** ResultFinalizer *)

Lemma fill_step_same key d :
  lookup key (fill_step d key) = Some (filled (lookup key d)).
Proof.
  unfold fill_step, filled. destruct (lookup key d) as [v |] eqn:E.
  - destruct (truthy v); [exact E | apply lookup_set_same].
  - apply lookup_set_same.
Qed.

Lemma fill_step_other key k d :
  key <> k -> lookup k (fill_step d key) = lookup k d.
Proof.
  intros N. unfold fill_step. destruct (lookup key d) as [v |].
  - destruct (truthy v); [reflexivity | apply lookup_set_other; exact N].
  - apply lookup_set_other; exact N.
Qed.

Lemma fill_fold ks : NoDup ks -> forall d k,
  lookup k (fold_left fill_step ks d)
  = if existsb (str_eqb k) ks then Some (filled (lookup k d)) else lookup k d.
Proof.
  induction 1 as [| key ks Hn Hd IH]; intros d k; cbn [fold_left existsb].
  - reflexivity.
  - rewrite IH. destruct (str_eqb k key) eqn:E.
    + apply str_eqb_eq in E. subst k. cbn [orb].
      destruct (existsb (str_eqb key) ks) eqn:Ex.
      * apply existsb_str_In in Ex. contradiction.
      * apply fill_step_same.
    + cbn [orb]. apply str_eqb_neq in E.
      rewrite fill_step_other by congruence. reflexivity.
Qed.

Lemma fill_lookup d k :
  lookup k (_fill_missing_requirements d)
  = if required k then Some (filled (lookup k d)) else lookup k d.
Proof.
  unfold _fill_missing_requirements, required.
  apply (fill_fold required_keys_NoDup).
Qed.

Lemma filled_truthy o : truthy (filled o) = true.
Proof.
  unfold filled. destruct o as [v |]; [|reflexivity].
  destruct (truthy v) eqn:E; [exact E | reflexivity].
Qed.

Lemma fill_fold_fixed ks : forall d,
  (forall k, In k ks -> exists v, lookup k d = Some v /\ truthy v = true) ->
  fold_left fill_step ks d = d.
Proof.
  induction ks as [| key ks IH]; intros d H; cbn [fold_left]; [reflexivity|].
  assert (E : fill_step d key = d).
  { destruct (H key (or_introl eq_refl)) as (v & Hv & Ht).
    unfold fill_step. rewrite Hv, Ht. reflexivity. }
  rewrite E. apply IH. intros k Hk. apply H. right. exact Hk.
Qed.

Lemma fill_fixed d :
  (forall k, In k required_keys ->
             exists v, lookup k d = Some v /\ truthy v = true) ->
  _fill_missing_requirements d = d.
Proof. apply fill_fold_fixed. Qed.

Lemma fill_idem d :
  _fill_missing_requirements (_fill_missing_requirements d)
  = _fill_missing_requirements d.
Proof.
  apply fill_fixed. intros k Hk. rewrite fill_lookup.
  unfold required. apply existsb_str_In in Hk. rewrite Hk.
  eexists. split; [reflexivity | apply filled_truthy].
Qed.

(** X11: after the filling step a required key holds the value it had
    when that value was true, and the placeholder list otherwise (a true
    value that is no list stays); any other key is as it was. *)
Theorem fill_sets_required_keys (result : dict) (key : str) :
  lookup key (_fill_missing_requirements result)
  = (if required key then Some (filled (lookup key result))
     else lookup key result)
  /\ (required key = true ->
      exists v, lookup key (_fill_missing_requirements result) = Some v
                /\ truthy v = true).
Proof.
  split; [apply fill_lookup|].
  intros R. rewrite fill_lookup, R. eexists. split; [reflexivity|].
  apply filled_truthy.
Qed.

(** X12: filling twice is filling once, and so is finalising. *)
Theorem finalize_is_idempotent (structured_result : dict) :
  _fill_missing_requirements (_fill_missing_requirements structured_result)
  = _fill_missing_requirements structured_result
  /\ finalize (finalize structured_result) = finalize structured_result.
Proof.
  split; [apply fill_idem|].
  unfold finalize.
  destruct (_validate_analysis_result structured_result) eqn:E; cbn [negb].
  - rewrite E. reflexivity.
  - destruct (_validate_analysis_result
                (_fill_missing_requirements structured_result));
      cbn [negb]; [reflexivity | apply fill_idem].
Qed.

(** X13: the finalised record passes the structure test exactly when no
    required key of the record held a true value that is no list. *)
Theorem finalize_validates_iff (structured_result : dict) :
  _validate_analysis_result (finalize structured_result)
  = forallb (fun key =>
               match lookup key structured_result with
               | Some v => is_list v || negb (truthy v)
               | None => true
               end) required_keys.
Proof.
  unfold finalize.
  destruct (_validate_analysis_result structured_result) eqn:E; cbn [negb].
  - rewrite E. symmetry. unfold _validate_analysis_result in E.
    rewrite forallb_forall in E. apply forallb_forall. intros k Hk.
    specialize (E k Hk). destruct (lookup k structured_result); [|reflexivity].
    rewrite E. reflexivity.
  - unfold _validate_analysis_result at 1. apply forallb_eq_on.
    intros k Hk. rewrite fill_lookup. unfold required.
    apply existsb_str_In in Hk. rewrite Hk. unfold filled.
    destruct (lookup k structured_result) as [v |]; [|reflexivity].
    destruct (truthy v); cbn [negb]; [rewrite orb_false_r | rewrite orb_true_r];
      reflexivity.
Qed.

(** ** RecordBuilder and the payload path *)

Lemma build_shape parsed :
  _build_structured_result parsed
  = [ (FR, get FR (PList []) parsed); (NFR, get NFR (PList []) parsed);
      (RISK, get RISK (PList []) parsed); (TS, PList (converted parsed)) ].
Proof.
  unfold _build_structured_result, converted.
  destruct (lookup TS parsed) as [[]|]; apply set_ts_last.
Qed.

Lemma build_scenarios_objects entries : forall acc,
  exists l, build_scenarios entries acc = acc ++ l
            /\ forallb is_scenario l = true
            /\ List.length l = List.length (filter is_dict entries).
Proof.
  induction entries as [| e entries IH]; intros acc.
  - exists []. cbn [build_scenarios]. rewrite app_nil_r. repeat split.
  - destruct e; cbn [build_scenarios filter is_dict]; try apply IH.
    match goal with
    | |- context [build_scenarios entries (acc ++ [?x])] =>
        destruct (IH (acc ++ [x])) as (l & E & F & L); exists (x :: l)
    end.
    rewrite E, <- app_assoc.
    cbn [app forallb is_scenario TestScenario List.length].
    rewrite F, L. repeat split.
Qed.

(** X14: whatever the payload holds, the builder stores under
    [test_scenarios] a list of [TestScenario] objects: one for each entry
    that is a dictionary when the payload's value is a list, and the one
    default scenario otherwise. *)
Theorem builder_scenarios_are_objects (parsed_result : dict) :
  exists l,
    lookup TS (_build_structured_result parsed_result) = Some (PList l)
    /\ forallb is_scenario l = true
    /\ List.length l
       = match lookup TS parsed_result with
         | Some (PList entries) => List.length (filter is_dict entries)
         | _ => 1
         end.
Proof.
  exists (converted parsed_result). rewrite build_shape, lookup_ts_last.
  split; [reflexivity|]. unfold converted.
  destruct (lookup TS parsed_result) as [v|]; [|split; reflexivity].
  destruct v; try (split; reflexivity).
  destruct (build_scenarios_objects xs []) as (l & E & F & L).
  rewrite E. cbn [app]. split; assumption.
Qed.

(** X15: a located payload that, without fence marks, is written on one
    line, passes the validator and decodes to a dictionary whose three
    string fields are lists (or absent), gives the record the builder makes
    of that dictionary: neither repair pass, nor the fallback search, nor
    the filling step changes anything.  The payload has at most a hundred
    opening brackets, so that its nesting is within what the interpreter
    decodes. *)
Theorem one_line_payload_is_built (response_str json_str : str)
  (parsed_result : dict) :
  locate locator_patterns response_str = Some json_str ->
  no_layout (delete fence_marks (strip json_str)) = true ->
  _is_valid_json_format (delete fence_marks (strip json_str)) = true ->
  loads (delete fence_marks (strip json_str)) = Some (PDict parsed_result) ->
  is_list (get FR (PList []) parsed_result) = true ->
  is_list (get NFR (PList []) parsed_result) = true ->
  is_list (get RISK (PList []) parsed_result) = true ->
  (openers (delete fence_marks (strip json_str)) <=? 100) = true ->
  recover response_str = _build_structured_result parsed_result.
Proof.
  intros Hloc Hl Hv Hd Ha Hb Hc _.
  rewrite recover_unfold, Hloc. unfold from_payload.
  assert (C : closed (delete fence_marks (strip json_str)) = true).
  { unfold closed. rewrite (@valid_ends _ Hv). apply orb_true_r. }
  rewrite (@fix_closed_line _ Hl C), Hv. cbn [negb]. rewrite Hd.
  unfold finalize. rewrite build_shape, validate_built, Ha, Hb, Hc.
  reflexivity.
Qed.

Lemma one_line_payload_witness :
  recover one_item_payload
  = _build_structured_result [(FR, PList [PStr (u "a1")])].
Proof.
  apply (@one_line_payload_is_built one_item_payload one_item_payload);
    vm_compute; reflexivity.
Defined.

(** ** LabelExtractor and the fallback search *)

Lemma or_default_full a x b : is_full_list (or_default a (x :: b)) = true.
Proof. destruct a; reflexivity. Qed.

Lemma full_list_truthy v : is_full_list v = true -> truthy v = true.
Proof. destruct v as [| | | | [|] | |]; try discriminate; reflexivity. Qed.

Lemma label_scenarios_of_shape l : forall i v,
  In v (label_scenarios_of i l) -> label_scenario v.
Proof.
  induction l as [| s l IH]; intros i v H; cbn [label_scenarios_of] in H;
    [destruct H|].
  cbv zeta in H. apply in_app_or in H. destruct H as [H | H].
  - destruct (long_enough (strip s)) eqn:E; [|destruct H].
    destruct H as [<- | []]. exists (ts_id (i + 1)), (strip s).
    split; [reflexivity|]. split; [apply strip_idem|].
    unfold long_enough in E. apply andb_prop in E. destruct E as [_ E].
    apply Nat.ltb_lt in E. exact E.
  - eapply IH. exact H.
Qed.

(** X16: the record of the label scanner is complete: each of the four
    keys holds a list with an element, so the record passes the structure
    test and the filling step and the finaliser leave it as it is. *)
Theorem label_record_is_complete (response_str : str) :
  let r := _extract_fallback_from_text response_str in
  forallb (fun key => match lookup key r with
                      | Some v => is_full_list v
                      | None => false
                      end) required_keys = true
  /\ _validate_analysis_result r = true
  /\ _fill_missing_requirements r = r
  /\ finalize r = r.
Proof.
  cbv zeta.
  assert (F : forall k, In k required_keys ->
              exists v, lookup k (_extract_fallback_from_text response_str)
                        = Some v
                        /\ is_full_list v = true).
  { intros k Hk. unfold _extract_fallback_from_text.
    rewrite (@lookup_four k _ _ _ _ Hk). eexists. split; [reflexivity|].
    destruct (str_eqb k FR); [apply or_default_full|].
    destruct (str_eqb k NFR); [apply or_default_full|].
    destruct (str_eqb k TS); apply or_default_full. }
  assert (V : _validate_analysis_result
                (_extract_fallback_from_text response_str) = true).
  { unfold _extract_fallback_from_text.
    rewrite validate_four, !is_list_or_default. reflexivity. }
  repeat split.
  - apply forallb_forall. intros k Hk. destruct (F k Hk) as (v & -> & Hv).
    exact Hv.
  - exact V.
  - apply fill_fixed. intros k Hk. destruct (F k Hk) as (v & E & Hv).
    exists v. split; [exact E | apply full_list_truthy; exact Hv].
  - unfold finalize. rewrite V. reflexivity.
Qed.

(** X17: an item of the label scanner is a piece between separators of
    the text after the label: it holds no separator, it is stripped, and it
    has more than two characters. *)
Theorem label_items_shape (patterns : list regex) (response_str item : str) :
  In item (label_items patterns response_str) ->
  2 < len item
  /\ strip item = item
  /\ forallb (fun c => negb (separator c)) item = true.
Proof.
  unfold label_items. rewrite in_flat_map. intros (m & _ & H).
  apply filter_In in H. destruct H as [H L].
  apply in_map_iff in H. destruct H as (w & <- & Hw).
  unfold long_enough in L. apply andb_prop in L. destruct L as [_ L].
  apply Nat.ltb_lt in L. split; [exact L|]. split; [apply strip_idem|].
  apply strip_forallb.
  pose proof (split_class_Forall separator (strip m)) as F.
  rewrite Forall_forall in F. apply F. exact Hw.
Qed.

Lemma label_items_witness :
  2 < len (u "权限绕过")
  /\ strip (u "权限绕过") = u "权限绕过"
  /\ forallb (fun c => negb (separator c)) (u "权限绕过") = true.
Proof.
  apply (@label_items_shape risk_patterns risk_label_only).
  vm_compute. right. left. reflexivity.
Defined.

(** X18: under [test_scenarios] the label scanner stores dictionaries, not
    [TestScenario] objects: each has the keys [id], [description] and
    [test_cases], and a stripped description of more than two characters. *)
Theorem label_scenarios_are_dictionaries (response_str : str) :
  exists l,
    lookup TS (_extract_fallback_from_text response_str) = Some (PList l)
    /\ l <> []
    /\ forall v, In v l -> label_scenario v /\ is_scenario v = false.
Proof.
  unfold _extract_fallback_from_text. rewrite lookup_ts_third.
  unfold or_default.
  destruct (label_scenarios response_str) as [| x l] eqn:L;
    eexists; (split; [reflexivity|]); (split; [discriminate|]).
  - intros v [<- | []]. split; [|reflexivity].
    eexists _, _. split; [reflexivity|]. split; vm_compute; [reflexivity | lia].
  - intros v Hv. rewrite <- L in Hv. unfold label_scenarios in Hv.
    apply in_flat_map in Hv. destruct Hv as (m & _ & Hv).
    apply label_scenarios_of_shape in Hv. split; [exact Hv|].
    destruct Hv as (i & d & -> & _). reflexivity.
Qed.

(** X19: the fallback search looks for a flat object around one of three
    quoted keys; in a text that holds none of them it finds nothing and the
    result is the record of the label scanner. *)
Theorem fallback_without_keys (response_str : str) :
  contains response_str (q "'functional_requirements'") = false ->
  contains response_str (q "'test_scenarios'") = false ->
  contains response_str (q "'risk_areas'") = false ->
  _extract_json_fallback response_str
  = _extract_fallback_from_text response_str.
Proof.
  intros H1 H2 H3. unfold _extract_json_fallback, fallback_patterns.
  cbn [map flat_map].
  rewrite (@findall0_requires (q "'functional_requirements'")
             (flat_object_with "functional_requirements") response_str)
    by (try exact H1; vm_compute; reflexivity).
  rewrite (@findall0_requires (q "'test_scenarios'")
             (flat_object_with "test_scenarios") response_str)
    by (try exact H2; vm_compute; reflexivity).
  rewrite (@findall0_requires (q "'risk_areas'")
             (flat_object_with "risk_areas") response_str)
    by (try exact H3; vm_compute; reflexivity).
  reflexivity.
Qed.

Lemma fallback_without_keys_witness :
  _extract_json_fallback risk_label_only
  = _extract_fallback_from_text risk_label_only.
Proof.
  apply fallback_without_keys; vm_compute; reflexivity.
Defined.

Lemma nth_app_here (pre : str) x rest :
  @nth char (len pre) (pre ++ x :: rest) 0%N = x.
Proof. unfold len. rewrite nth_middle. reflexivity. Qed.

Lemma skipn_app_here (pre rest : str) : skipn (len pre) (pre ++ rest) = rest.
Proof.
  unfold len. rewrite skipn_app, skipn_all, Nat.sub_diag. reflexivity.
Qed.

Lemma firstn_app_here (m rest : str) : firstn (len m) (m ++ rest) = m.
Proof.
  unfold len. rewrite firstn_app, firstn_all, Nat.sub_diag. cbn [firstn].
  apply app_nil_r.
Qed.

Lemma scan_back_open (s : str) i :
  @nth char i s 0%N = ch "{" -> scan_back s i 0 = Some i.
Proof. intros H. destruct i; cbn [scan_back]; rewrite H; reflexivity. Qed.

Lemma scan_forward_other c rest i :
  is_brace c = false -> scan_forward (c :: rest) i 0 = Some (i + 1).
Proof.
  unfold is_brace. intros H. apply orb_false_elim in H. destruct H as [Ho Hc].
  cbn [scan_forward]. unfold count_brace. rewrite Ho, Hc. reflexivity.
Qed.

(** The text the fallback search hands to the repair passes, for a match
    that starts with a brace and is followed by a character that is no
    brace. *)
Lemma expansion_one_more (pre m rest : str) c :
  startswith m (u "{") = true -> is_brace c = false ->
  slice (pre ++ m ++ c :: rest)
    (match scan_back (pre ++ m ++ c :: rest) (len pre) 0 with
     | Some i => i
     | None => len pre
     end)
    (match scan_forward (skipn (len pre + len m) (pre ++ m ++ c :: rest))
             (len pre + len m) 0 with
     | Some i => i
     | None => len pre + len m
     end)
  = m ++ [c].
Proof.
  intros Hm Hc. apply startswith_app in Hm.
  rewrite scan_back_open
    by (rewrite Hm; cbn [app]; apply nth_app_here).
  rewrite skipn_add, skipn_app_here, skipn_app_here.
  rewrite (@scan_forward_other _ _ _ Hc).
  unfold slice. rewrite skipn_app_here.
  replace (len pre + len m + 1 - len pre) with (len (m ++ [c]))
    by (unfold len; rewrite length_app; cbn [List.length]; lia).
  change (m ++ c :: rest) with (m ++ [c] ++ rest). rewrite app_assoc.
  apply firstn_app_here.
Qed.

(** X20: the widening of a match in the fallback search never moves the
    start, and moves the end by one character when the match is followed by
    a character that is no brace: what is repaired and decoded is the match
    and that one character, wherever the match lies in the response. *)
Theorem fallback_widens_by_one_character (pre m rest : str) (c : char) :
  find (pre ++ m ++ c :: rest) m = Some (len pre) ->
  startswith m (u "{") = true ->
  is_brace c = false ->
  try_match (pre ++ m ++ c :: rest) m = try_match (m ++ [c]) m.
Proof.
  intros Hf Hm Hc. unfold try_match at 1. rewrite Hf.
  rewrite (@expansion_one_more pre m rest c Hm Hc).
  unfold try_match.
  assert (F : find (m ++ [c]) m = Some 0).
  { unfold find. destruct m as [| x m]; [discriminate|].
    cbn [app find_from].
    change (x :: m ++ [c]) with ((x :: m) ++ [c]).
    rewrite startswith_self_app. reflexivity. }
  rewrite F.
  pose proof (@expansion_one_more [] m [] c Hm Hc) as E.
  cbn [app len List.length Nat.add] in E. cbn [Nat.add].
  unfold len in E |- *. rewrite E. reflexivity.
Qed.

Lemma fallback_widens_witness :
  try_match object_in_prose (q "{'risk_areas': []}")
  = try_match (q "{'risk_areas': []};") (q "{'risk_areas': []}").
Proof.
  apply (@fallback_widens_by_one_character (u "see ") (q "{'risk_areas': []}")
           (u " done") (ch ";"));
    vm_compute; reflexivity.
Defined.

(** ** SectionExtractor *)

Lemma clean_line_printable raw :
  Forall (fun c => N.leb 32 c = true) (clean_line raw).
Proof.
  unfold clean_line. apply Forall_forall. intros c H.
  apply filter_In in H. tauto.
Qed.

Lemma after_first_Forall (P : char -> Prop) sep s :
  Forall P s -> Forall P (after_first sep s).
Proof.
  induction 1 as [| c s Hc Hs IH]; cbn [after_first]; [constructor|].
  destruct (N.eqb c sep); assumption.
Qed.

Lemma cut_number_Forall (P : char -> Prop) seps s :
  Forall P s -> Forall P (cut_number seps s).
Proof.
  intros H. induction seps as [| sep seps IH]; cbn [cut_number]; [exact H|].
  destruct (mem sep s); [apply after_first_Forall; exact H | exact IH].
Qed.

Lemma tidy_strip s :
  Forall (fun c => N.leb 32 c = true) s -> tidy (strip s).
Proof.
  intros H. split; [apply strip_idem|].
  apply Forall_forallb. apply strip_Forall. exact H.
Qed.

Lemma section_entry_tidy prefixes (line : str) items :
  Forall (fun c => N.leb 32 c = true) line ->
  Forall tidy items -> Forall tidy (section_entry prefixes line items).
Proof.
  intros Hl Hi. unfold section_entry.
  match goal with
  | |- context [strip ?x] =>
      match x with
      | (if starts_with_bullet line then _ else _) =>
          assert (Hc : Forall (fun c => N.leb 32 c = true) x);
          [| generalize dependent x; intros content Hc]
      end
  end.
  { destruct (starts_with_bullet line).
    - apply strip_Forall, skipn_Forall. exact Hl.
    - destruct (existsb isdigit (firstn 2 line));
        [apply cut_number_Forall|]; exact Hl. }
  match goal with
  | |- context [if ?b then _ else items] => destruct b; [|exact Hi]
  end.
  apply Forall_snoc; [exact Hi|].
  destruct (startswith (strip content) (u "-")).
  - apply tidy_strip, skipn_Forall, strip_Forall. exact Hc.
  - apply tidy_strip. exact Hc.
Qed.

Lemma section_loop_tidy enter leave prefixes sections : forall in_section items,
  Forall tidy items ->
  Forall tidy (section_loop enter leave prefixes sections in_section items).
Proof.
  induction sections as [| raw rest IH]; intros in_section items Hi;
    cbn [section_loop]; [exact Hi|].
  destruct (negb (nonempty (clean_line raw))); [apply IH; exact Hi|].
  destruct (enter (clean_line raw)); [apply IH; exact Hi|].
  destruct (leave (clean_line raw)); [exact Hi|].
  destruct in_section; [|apply IH; exact Hi].
  apply IH. apply section_entry_tidy; [apply clean_line_printable | exact Hi].
Qed.

Lemma functional_entry_tidy (line : str) items :
  Forall (fun c => N.leb 32 c = true) line ->
  Forall tidy items -> Forall tidy (functional_entry line items).
Proof.
  intros Hl Hi. unfold functional_entry.
  set (c0 := strip line).
  assert (H0 : Forall (fun c => N.leb 32 c = true) c0)
    by (apply strip_Forall; exact Hl).
  set (c1 := if is_some (rmatch numbered_pattern c0)
             then strip (delete numbered_pattern c0) else c0).
  assert (H1 : Forall (fun c => N.leb 32 c = true) c1).
  { unfold c1. destruct (is_some (rmatch numbered_pattern c0)); [|exact H0].
    apply strip_Forall, delete_Forall. exact H0. }
  set (c2 := if is_some (rmatch bullet_pattern c1)
             then strip (skipn 1 c1) else c1).
  assert (H2 : Forall (fun c => N.leb 32 c = true) c2).
  { unfold c2. destruct (is_some (rmatch bullet_pattern c1)); [|exact H1].
    apply strip_Forall, skipn_Forall. exact H1. }
  clearbody c2. clear c1 H1 c0 H0.
  set (c3 := strip (delete special_chars_1 c2)).
  assert (H3 : Forall (fun c => N.leb 32 c = true) (delete special_chars_1 c2))
    by (apply delete_Forall; exact H2).
  match goal with
  | |- context [if ?b then items ++ [c3] else _] => destruct b
  end.
  { apply Forall_snoc; [exact Hi | apply tidy_strip; exact H3]. }
  set (c4 := strip (delete special_chars_2 c3)).
  set (c5 := strip (delete special_chars_3 c4)).
  assert (H5 : Forall (fun c => N.leb 32 c = true) (delete special_chars_3 c4)).
  { apply delete_Forall, strip_Forall, delete_Forall, strip_Forall. exact H3. }
  match goal with
  | |- context [if ?b then items ++ [c5] else _] => destruct b
  end.
  { apply Forall_snoc; [exact Hi | apply tidy_strip; exact H5]. }
  apply Forall_snoc; [exact Hi|].
  destruct (startswith c5 (u "-")).
  - apply tidy_strip, skipn_Forall, strip_Forall. exact H5.
  - apply tidy_strip. exact H5.
Qed.

Lemma functional_loop_tidy sections : forall in_section items,
  Forall tidy items ->
  Forall tidy (functional_loop sections in_section items).
Proof.
  induction sections as [| raw rest IH]; intros in_section items Hi;
    cbn [functional_loop]; [exact Hi|].
  cbv zeta.
  destruct (negb (nonempty (clean_line raw))); [apply IH; exact Hi|].
  match goal with
  | |- context [if any_in title_patterns ?x then _ else _] =>
      destruct (any_in title_patterns x); [apply IH; exact Hi|];
      destruct (any_in exit_patterns x); [exact Hi|]
  end.
  destruct in_section; [|apply IH; exact Hi].
  apply IH. apply functional_entry_tidy; [apply clean_line_printable | exact Hi].
Qed.

Lemma functional_reqs_tidy message :
  Forall tidy (_extract_functional_reqs message).
Proof.
  unfold _extract_functional_reqs.
  destruct (negb (nonempty message)); [constructor|].
  pose proof (@functional_loop_tidy (split_char NL message) false []
                (Forall_nil _)) as H.
  destruct (functional_loop (split_char NL message) false []) as [| x l].
  - constructor; [|constructor]. split; vm_compute; reflexivity.
  - exact H.
Qed.

Lemma non_functional_reqs_tidy message :
  Forall tidy (_extract_non_functional_reqs message).
Proof.
  unfold _extract_non_functional_reqs.
  destruct (negb (nonempty message)); [constructor|].
  apply section_loop_tidy. constructor.
Qed.

Lemma risk_areas_tidy message : Forall tidy (_extract_risk_areas message).
Proof.
  unfold _extract_risk_areas.
  destruct (negb (nonempty message)); [constructor|].
  apply section_loop_tidy. constructor.
Qed.

(** X21: every item of the three heading scanners of string fields is
    stripped and holds no character below the space (so no line break and no
    tab), the placeholder of the functional requirements included. *)
Theorem heading_items_are_tidy (message item : str) :
  In item (_extract_functional_reqs message)
  \/ In item (_extract_non_functional_reqs message)
  \/ In item (_extract_risk_areas message) ->
  tidy item.
Proof.
  intros [H | [H | H]];
    [ pose proof (functional_reqs_tidy message) as F
    | pose proof (non_functional_reqs_tidy message) as F
    | pose proof (risk_areas_tidy message) as F ];
    rewrite Forall_forall in F; apply F; exact H.
Qed.

Lemma heading_items_witness : tidy (u "系统应支持用户登录").
Proof.
  apply (@heading_items_are_tidy functional_only). left.
  vm_compute. left. reflexivity.
Defined.

Lemma number_scenarios_shape l : forall i v,
  Forall tidy l -> In v (number_scenarios i l) ->
  exists k d, v = TestScenario (numbered k) (PStr d) (PList []) /\ tidy d.
Proof.
  induction l as [| d l IH]; intros i v Hl H; cbn [number_scenarios] in H;
    [destruct H|].
  inversion Hl as [| ? ? Hd Hl']; subst.
  destruct H as [<- | H].
  - exists (i + 1), d. split; [reflexivity | exact Hd].
  - eapply IH; [exact Hl' | exact H].
Qed.

(** X22: every scenario of the heading scanner is a [TestScenario] with a
    synthesized id, a tidy description and an empty list of test cases. *)
Theorem heading_scenarios_shape (message : str) (scenario : pyval) :
  In scenario (_extract_test_scenarios message) ->
  exists k description,
    scenario = TestScenario (numbered k) (PStr description) (PList [])
    /\ tidy description.
Proof.
  unfold _extract_test_scenarios.
  destruct (negb (nonempty message)); [intros []|].
  assert (T : Forall tidy (scenario_descriptions_of message)).
  { unfold scenario_descriptions_of. apply section_loop_tidy. constructor. }
  destruct (number_scenarios 0 (scenario_descriptions_of message))
    as [| x l] eqn:E.
  - intros [<- | []]. exists 1, (u "需要提供具体的测试场景").
    split; [vm_compute; reflexivity | split; vm_compute; reflexivity].
  - rewrite <- E. apply number_scenarios_shape. exact T.
Qed.

Lemma heading_scenarios_witness :
  exists k description,
    TestScenario (PStr (u "TS002")) (PStr (u "登录失败")) (PList [])
    = TestScenario (numbered k) (PStr description) (PList [])
    /\ tidy description.
Proof.
  apply (@heading_scenarios_shape scenario_section).
  vm_compute. right. left. reflexivity.
Defined.

Lemma section_loop_outside enter leave prefixes sections : forall items,
  forallb (fun raw => negb (nonempty (clean_line raw) && enter (clean_line raw)))
          sections = true ->
  section_loop enter leave prefixes sections false items = items.
Proof.
  induction sections as [| raw rest IH]; intros items H;
    cbn [section_loop]; [reflexivity|].
  cbn [forallb] in H. apply andb_prop in H. destruct H as [H Hr].
  destruct (nonempty (clean_line raw)); cbn [negb]; [|apply IH; exact Hr].
  cbn [andb] in H. destruct (enter (clean_line raw)); [discriminate|].
  destruct (leave (clean_line raw)); [reflexivity | apply IH; exact Hr].
Qed.

Lemma functional_loop_outside sections : forall items,
  forallb (fun raw => negb (nonempty (clean_line raw)
                            && functional_title (clean_line raw)))
          sections = true ->
  functional_loop sections false items = items.
Proof.
  induction sections as [| raw rest IH]; intros items H;
    cbn [functional_loop]; [reflexivity|].
  cbn [forallb] in H. apply andb_prop in H. destruct H as [H Hr].
  cbv zeta.
  destruct (nonempty (clean_line raw)); cbn [negb]; [|apply IH; exact Hr].
  cbn [andb] in H. unfold functional_title in H.
  match goal with
  | |- context [if any_in title_patterns ?x then _ else _] =>
      destruct (any_in title_patterns x); [discriminate|];
      destruct (any_in exit_patterns x); [reflexivity | apply IH; exact Hr]
  end.
Qed.

(** X23: for a text of which no line opens a section, the heading scanners
    find nothing: the functional requirements and the scenarios are the
    placeholders, the two other lists are empty. *)
Theorem sections_of_text_without_heading (message : str) :
  nonempty message = true -> no_heading message = true ->
  from_sections message
  = [ (FR, PList [PStr (u "需要提供具体的功能需求")]);
      (NFR, PList []);
      (TS, PList [default_scenario]);
      (RISK, PList []) ].
Proof.
  intros Hm H. unfold no_heading in H.
  unfold from_sections, _extract_functional_reqs, _extract_non_functional_reqs,
    _extract_test_scenarios, scenario_descriptions_of, _extract_risk_areas.
  rewrite Hm. cbn [negb].
  rewrite functional_loop_outside, !section_loop_outside; [reflexivity | | | |];
    (revert H; apply forallb_weaken; intros raw H; unfold opens_section in H;
     cbv zeta in H; destruct (nonempty (clean_line raw)); cbn [andb negb] in *;
     [|reflexivity]; apply negb_true_iff in H; apply negb_true_iff;
     apply orb_false_elim in H; destruct H as [H H3];
     apply orb_false_elim in H; destruct H as [H H2];
     apply orb_false_elim in H; destruct H as [H H1]; assumption).
Qed.

Lemma sections_without_heading_witness :
  from_sections prose
  = [ (FR, PList [PStr (u "需要提供具体的功能需求")]);
      (NFR, PList []);
      (TS, PList [default_scenario]);
      (RISK, PList []) ].
Proof.
  apply sections_of_text_without_heading; vm_compute; reflexivity.
Defined.

(** ** [analyze] *)

Lemma is_error_error_result e : is_error (error_result e) = true.
Proof.
  unfold is_error, error_result. generalize (str_of e). intros m.
  vm_compute. reflexivity.
Qed.

Lemma strip_nonempty s : strip s <> [] -> nonempty s && nonempty (strip s) = true.
Proof.
  intros H. destruct s as [| c s]; [exfalso; apply H; reflexivity|].
  destruct (strip (c :: s)); [exfalso; apply H; reflexivity | reflexivity].
Qed.

Lemma analyze_blank io self doc :
  strip doc = [] ->
  analyze io self doc = (Raises (UnboundLocalError (u "TestScenario")), self).
Proof.
  intros H. unfold analyze. rewrite H. cbn [nonempty].
  rewrite andb_false_r. reflexivity.
Qed.

Lemma analyze_not_blank io self doc :
  strip doc <> [] ->
  analyze io self doc
  = match initiate_chat io with
    | Some e => (Raises e, self)
    | None =>
        match last_message io with
        | Raises e => (Returns (error_result e), self)
        | Returns None => (Returns default_result, Self (Some default_result))
        | Returns (Some response_str) =>
            match save_result io (recover response_str) with
            | Some e => (Returns (error_result e), self)
            | None =>
                (Returns (recover response_str),
                 Self (Some (recover response_str)))
            end
        end
    end.
Proof.
  intros H. unfold analyze, _get_default_result.
  rewrite (@strip_nonempty _ H). reflexivity.
Qed.

Lemma blank_or_not (doc : str) : strip doc = [] \/ strip doc <> [].
Proof. destruct (strip doc); [left; reflexivity | right; discriminate]. Qed.

(** X24: what [analyze] does, both ways.  It raises exactly in two cases:
    on a document that is empty once stripped, the [UnboundLocalError] of
    line 101, and otherwise what the chat set-up raised.  It returns the
    error-shaped dictionary exactly when, the chat set up, reading the last
    message raised or saving the record raised.  It returns a record
    exactly when the answer was falsy (the default record) or the record
    recovered from the answer was saved (that record); such a record holds
    the four keys. *)
Theorem analyze_outcome_iff (io : collaborators) (self : agent) (doc : str) :
  (forall e,
     fst (analyze io self doc) = Raises e <->
     (strip doc = [] /\ e = UnboundLocalError (u "TestScenario"))
     \/ (strip doc <> [] /\ initiate_chat io = Some e))
  /\ (forall r,
       (fst (analyze io self doc) = Returns r /\ is_error r = true) <->
       (strip doc <> [] /\ initiate_chat io = None
        /\ exists e,
            r = error_result e
            /\ (last_message io = Raises e
                \/ exists response_str,
                    last_message io = Returns (Some response_str)
                    /\ save_result io (recover response_str) = Some e)))
  /\ (forall r,
       (fst (analyze io self doc) = Returns r /\ is_error r = false) <->
       (strip doc <> [] /\ initiate_chat io = None
        /\ ((last_message io = Returns None /\ r = default_result)
            \/ exists response_str,
                last_message io = Returns (Some response_str)
                /\ save_result io (recover response_str) = None
                /\ r = recover response_str)))
  /\ (forall r,
       fst (analyze io self doc) = Returns r -> is_error r = false ->
       record_keys r).
Proof.
  assert (D : is_error default_result = false) by (vm_compute; reflexivity).
  assert (K : record_keys default_result) by (left; vm_compute; reflexivity).
  destruct (blank_or_not doc) as [B | B].
  { rewrite (@analyze_blank io self doc B). cbn [fst].
    split; [|split; [|split]].
    - intros e. split.
      + intros [= <-]. left. split; [exact B | reflexivity].
      + intros [[_ ->] | [N _]]; [reflexivity | contradiction].
    - intros r. split.
      + intros [H _]. discriminate H.
      + intros (N & _). contradiction.
    - intros r. split.
      + intros [H _]. discriminate H.
      + intros (N & _). contradiction.
    - intros r H. discriminate H. }
  rewrite (@analyze_not_blank io self doc B).
  destruct (initiate_chat io) as [x|] eqn:Ei.
  { cbn [fst]. split; [|split; [|split]].
    - intros e. split.
      + intros [= <-]. right. split; [exact B | reflexivity].
      + intros [[N _] | [_ [= ->]]]; [contradiction | reflexivity].
    - intros r. split.
      + intros [H _]. discriminate H.
      + intros (_ & N & _). discriminate N.
    - intros r. split.
      + intros [H _]. discriminate H.
      + intros (_ & N & _). discriminate N.
    - intros r H. discriminate H. }
  destruct (last_message io) as [[t|]|x] eqn:Em.
  - destruct (save_result io (recover t)) as [x|] eqn:Es; cbn [fst].
    + pose proof (is_error_error_result x) as Ex.
      split; [|split; [|split]].
      * intros e. split.
        -- intros H. discriminate H.
        -- intros [[N _] | [_ N]]; [contradiction | discriminate N].
      * intros r. split.
        -- intros [[= <-] _]. split; [exact B|]. split; [reflexivity|].
           exists x. split; [reflexivity|].
           right. exists t. split; [reflexivity | exact Es].
        -- intros (_ & _ & e & -> & [N | (t' & [= <-] & S')]);
             [discriminate N|].
           rewrite Es in S'. injection S' as <-.
           split; [reflexivity | exact Ex].
      * intros r. split.
        -- intros [[= <-] N]. rewrite Ex in N. discriminate N.
        -- intros (_ & _ & [[N _] | (t' & [= <-] & S' & _)]);
             [discriminate N|]. rewrite Es in S'. discriminate S'.
      * intros r [= <-] N. rewrite Ex in N. discriminate N.
    + pose proof (record_keys_no_error (recover_keys t)) as Er.
      split; [|split; [|split]].
      * intros e. split.
        -- intros H. discriminate H.
        -- intros [[N _] | [_ N]]; [contradiction | discriminate N].
      * intros r. split.
        -- intros [[= <-] N]. rewrite Er in N. discriminate N.
        -- intros (_ & _ & e & -> & [N | (t' & [= <-] & S')]);
             [discriminate N|]. rewrite Es in S'. discriminate S'.
      * intros r. split.
        -- intros [[= <-] _]. split; [exact B|]. split; [reflexivity|].
           right. exists t. split; [reflexivity|].
           split; [exact Es | reflexivity].
        -- intros (_ & _ & [[N _] | (t' & [= <-] & _ & ->)]);
             [discriminate N|]. split; [reflexivity | exact Er].
      * intros r [= <-] _. apply recover_keys.
  - cbn [fst]. split; [|split; [|split]].
    + intros e. split.
      * intros H. discriminate H.
      * intros [[N _] | [_ N]]; [contradiction | discriminate N].
    + intros r. split.
      * intros [[= <-] N]. rewrite D in N. discriminate N.
      * intros (_ & _ & e & -> & [N | (t' & N & _)]); discriminate N.
    + intros r. split.
      * intros [[= <-] _]. split; [exact B|]. split; [reflexivity|].
        left. split; reflexivity.
      * intros (_ & _ & [[_ ->] | (t' & N & _)]); [|discriminate N].
        split; [reflexivity | exact D].
    + intros r [= <-] _. exact K.
  - pose proof (is_error_error_result x) as Ex. cbn [fst].
    split; [|split; [|split]].
    + intros e. split.
      * intros H. discriminate H.
      * intros [[N _] | [_ N]]; [contradiction | discriminate N].
    + intros r. split.
      * intros [[= <-] _]. split; [exact B|]. split; [reflexivity|].
        exists x. split; [reflexivity|]. left. reflexivity.
      * intros (_ & _ & e & -> & [[= <-] | (t' & N & _)]);
          [|discriminate N]. split; [reflexivity | exact Ex].
    + intros r. split.
      * intros [[= <-] N]. rewrite Ex in N. discriminate N.
      * intros (_ & _ & [[N _] | (t' & N & _)]); discriminate N.
    + intros r [= <-] N. rewrite Ex in N. discriminate N.
Qed.

(** X25: the slot [last_analysis] after the call follows from the outcome:
    it holds the record returned, and keeps its former value when the
    error-shaped dictionary is returned and when the call raises. *)
Theorem last_analysis_follows_outcome (io : collaborators) (self : agent)
  (doc : str) :
  snd (analyze io self doc)
  = match fst (analyze io self doc) with
    | Returns r => if is_error r then self else Self (Some r)
    | Raises _ => self
    end.
Proof.
  destruct (blank_or_not doc) as [B | B].
  { rewrite (@analyze_blank io self doc B). reflexivity. }
  rewrite (@analyze_not_blank io self doc B).
  assert (D : is_error default_result = false) by (vm_compute; reflexivity).
  destruct (initiate_chat io) as [x|]; [reflexivity|].
  destruct (last_message io) as [[t|]|x]; cbn [fst snd].
  - destruct (save_result io (recover t)) as [x|]; cbn [fst snd].
    + rewrite is_error_error_result. reflexivity.
    + rewrite (record_keys_no_error (recover_keys t)). reflexivity.
  - rewrite D. reflexivity.
  - rewrite is_error_error_result. reflexivity.
Qed.
